(** * MultiQC (imgag fork): the BBMap identity-histogram plot and the ReadQC module

    A shallow embedding of

    - [multiqc/modules/bbmap/plot_idhist.py]: [plot_idhist];
    - [multiqc/modules/readqc/readqc.py]: [QcmlMultiqcModule] with
      [parse_qcml_by], [add_attribute], [get_read_type], [dict_ordered_subset]
      and [MultiqcModule.__init__].

    Python dictionaries keep their insertion order, and both files iterate
    over dictionaries, so a dictionary is an association list in insertion
    order here.  Exceptions are the left summand of [result]. *)

From Stdlib Require Import String Ascii List ZArith QArith Bool Lia.
From Stdlib Require Import DecimalString.
Import ListNotations.
Close Scope Q_scope.
Local Open Scope string_scope.
Local Open Scope list_scope.

(** ** Exceptions *)

(** The exceptions the two files can raise themselves. *)
Inductive exn : Type :=
| UserWarning
| KeyError (key : string)
| TypeError
| IndexError.

Definition result (A : Type) : Type := (exn + A)%type.

Definition ret {A : Type} (a : A) : result A := inr a.

Definition raise {A : Type} (e : exn) : result A := inl e.

Definition bind {A B : Type} (m : result A) (k : A -> result B) : result B :=
  match m with
  | inl e => inl e
  | inr a => k a
  end.

Notation "x <- m ;; k" := (bind m (fun x => k))
  (at level 61, m at next level, right associativity).
Notation "' p <- m ;; k" := (bind m (fun x => match x with p => k end))
  (at level 61, p pattern, m at next level, right associativity).

(** A [for] loop that threads a state and stops at the first exception. *)
Fixpoint foldM {A S : Type} (body : S -> A -> result S) (l : list A) (s : S)
  : result S :=
  match l with
  | [] => ret s
  | a :: l' => s' <- body s a ;; foldM body l' s'
  end.

(** A comprehension whose element expression may raise. *)
Fixpoint mapM {A B : Type} (f : A -> result B) (l : list A) : result (list B) :=
  match l with
  | [] => ret []
  | a :: l' => b <- f a ;; bs <- mapM f l' ;; ret (b :: bs)
  end.

(** ** Dictionaries *)

(** Keys are compared with [==]. *)
Class EqKey (K : Type) : Type := {
  keqb : K -> K -> bool;
  keqb_eq : forall a b, keqb a b = true <-> a = b
}.

#[export] Instance string_EqKey : EqKey string :=
  {| keqb := String.eqb; keqb_eq := String.eqb_eq |}.

#[export] Instance Z_EqKey : EqKey Z :=
  {| keqb := Z.eqb; keqb_eq := Z.eqb_eq |}.

#[export] Instance nat_EqKey : EqKey nat :=
  {| keqb := Nat.eqb; keqb_eq := Nat.eqb_eq |}.

Module Dict.
Section Dict.
Context {K V : Type} `{EqKey K}.

(** A [dict]: the items in insertion order. *)
Definition t : Type := list (K * V).

Definition empty : t := [].

(** [d.get(k)]. *)
Fixpoint get (d : t) (k : K) : option V :=
  match d with
  | [] => None
  | (k', v) :: d' => if keqb k' k then Some v else get d' k
  end.

(** [k in d]. *)
Definition mem (d : t) (k : K) : bool :=
  match get d k with
  | Some _ => true
  | None => false
  end.

(** [d[k] = v]: a key already there keeps its place. *)
Fixpoint set (d : t) (k : K) (v : V) : t :=
  match d with
  | [] => [(k, v)]
  | (k', v') :: d' =>
      if keqb k' k then (k', v) :: d' else (k', v') :: set d' k v
  end.

(** The dictionary left by [d.pop(k)] or [del d[k]]. *)
Definition remove (d : t) (k : K) : t :=
  filter (fun kv => negb (keqb (fst kv) k)) d.

Definition keys (d : t) : list K := map fst d.

Definition items (d : t) : list (K * V) := d.

Definition len (d : t) : nat := length d.

(** [dict(l)], and a dictionary comprehension over [l]. *)
Definition of_list (l : list (K * V)) : t :=
  fold_left (fun d kv => set d (fst kv) (snd kv)) l empty.

(** [d.update(l)]. *)
Definition update (d : t) (l : list (K * V)) : t :=
  fold_left (fun d kv => set d (fst kv) (snd kv)) l d.
End Dict.
Arguments t : clear implicits.
End Dict.

(** [d[k]] with its [KeyError]; the key is shown with [show]. *)
Definition getitem {K V : Type} `{EqKey K} (show : K -> string)
    (d : Dict.t K V) (k : K) : result V :=
  match Dict.get d k with
  | Some v => ret v
  | None => raise (KeyError (show k))
  end.

(** [d.pop(k)], keeping only the dictionary it leaves. *)
Definition popitem {K V : Type} `{EqKey K} (show : K -> string)
    (d : Dict.t K V) (k : K) : result (Dict.t K V) :=
  match Dict.get d k with
  | Some _ => ret (Dict.remove d k)
  | None => raise (KeyError (show k))
  end.

Definition show_string (s : string) : string := s.

(** ** Strings *)

(** [s.startswith(p)]. *)
Definition startswith (s p : string) : bool := String.prefix p s.

(** [p in s]: [p] occurs in [s] at some position. *)
Fixpoint contains (p s : string) : bool :=
  if String.prefix p s then true
  else match s with
       | EmptyString => false
       | String _ s' => contains p s'
       end.

Definition newline : string := String (ascii_of_nat 10) EmptyString.

(** [re.sub(r' percentage$', ' %', s)].  Without [re.MULTILINE] the anchor
    [$] matches at the end of the string and also just before a newline that
    ends the string, so the pattern matches where the rest of [s] is
    [" percentage"] or [" percentage\n"]; the match is replaced and the rest
    (nothing, or the newline) is kept. *)
Fixpoint re_sub_percentage (s : string) : string :=
  if String.eqb s " percentage" then " %"
  else if String.eqb s (" percentage" ++ newline) then " %" ++ newline
  else match s with
       | EmptyString => EmptyString
       | String c s' => String c (re_sub_percentage s')
       end.

(** [s.endswith(p)], used to state what [re_sub_percentage] does. *)
Fixpoint endswith (s p : string) : bool :=
  if String.eqb s p then true
  else match s with
       | EmptyString => false
       | String _ s' => endswith s' p
       end.


(** ASCII lower case of one character, and of a string. *)
Definition lower_ascii (c : ascii) : ascii :=
  let n := nat_of_ascii c in
  if andb (Nat.leb 65 n) (Nat.leb n 90) then ascii_of_nat (n + 32) else c.

Fixpoint lower (s : string) : string :=
  match s with
  | EmptyString => EmptyString
  | String c s' => String (lower_ascii c) (lower s')
  end.

(** ** XML element trees *)

(** An [xml.etree] element: tag (with its namespace in braces), attribute
    dictionary, children in document order. *)
#[warnings="-register-all"]
Inductive Element : Type :=
| mkElement (tag : string) (attrib : Dict.t string string)
            (children : list Element).

Definition tag (e : Element) : string :=
  match e with mkElement t _ _ => t end.

Definition attrib (e : Element) : Dict.t string string :=
  match e with mkElement _ a _ => a end.

Definition children (e : Element) : list Element :=
  match e with mkElement _ _ cs => cs end.

(** [e.iter()]: the element and everything below it, in document order. *)
Fixpoint iter (e : Element) : list Element :=
  match e with
  | mkElement _ _ cs =>
      e :: (fix iter_all (l : list Element) : list Element :=
              match l with
              | [] => []
              | c :: l' => iter c ++ iter_all l'
              end) cs
  end.

Definition qcml_ns : string := "{http://www.prime-xs.eu/ms/qcml}".

(** [root.findall(".//{http://www.prime-xs.eu/ms/qcml}%s" % tag)]: the
    elements of that tag strictly below [root], in document order. *)
Definition findall (root : Element) (tagname : string) : list Element :=
  filter (fun e => String.eqb (tag e) (qcml_ns ++ tagname))
         (flat_map iter (children root)).

(** ** [plot_idhist.py] *)

(** A [set]: a hash table, iterated slot by slot.  The order in which it
    yields its elements is the table's and not the program's, so the set is
    an interface here: what is added is what is yielded, each once. *)
Class PySet (A : Type) : Type := {
  pyset : Type;
  set_empty : pyset;
  set_add : pyset -> A -> pyset;
  set_iter : pyset -> list A;
  set_iter_empty : set_iter set_empty = [];
  set_iter_add : forall s a x,
      In x (set_iter (set_add s a)) <-> x = a \/ In x (set_iter s);
  set_iter_NoDup : forall s, NoDup (set_iter s)
}.

(** One entry of [samples]: the dictionary under its ["data"] key maps an
    x-value to the list of its counts. *)
Record sample_entry : Type := mkSample {
  data : Dict.t Z (list Z)
}.

(** [<] on lists of numbers, and on the tuples [(x, counts)] that
    [dict.items()] yields. *)
Fixpoint list_ltb (a b : list Z) : bool :=
  match a, b with
  | [], [] => false
  | [], _ :: _ => true
  | _ :: _, [] => false
  | x :: a', y :: b' =>
      if (x <? y)%Z then true
      else if (y <? x)%Z then false
      else list_ltb a' b'
  end.

Definition item_ltb (a b : Z * list Z) : bool :=
  if (fst a <? fst b)%Z then true
  else if (fst b <? fst a)%Z then false
  else list_ltb (snd a) (snd b).

(** [sorted(l)]: ascending, equal items in their original order. *)
Fixpoint insert_item (a : Z * list Z) (l : list (Z * list Z))
  : list (Z * list Z) :=
  match l with
  | [] => [a]
  | b :: l' => if item_ltb b a then b :: insert_item a l' else a :: b :: l'
  end.

Fixpoint sorted (l : list (Z * list Z)) : list (Z * list Z) :=
  match l with
  | [] => []
  | a :: l' => insert_item a (sorted l')
  end.

(** [l[i]] for an index that is not negative. *)
Definition index (l : list Z) (i : nat) : result Z :=
  match nth_error l i with
  | Some c => ret c
  | None => raise IndexError
  end.

Definition columns_to_plot : Dict.t string (Dict.t nat string) :=
  [ ("Reads", [ (0%nat, "Count") ]);
    ("Bases", [ (1%nat, "Count") ]) ].

(** [str(key)] of a number, for the [KeyError]. *)
Definition show_Z (x : Z) : string :=
  NilZero.string_of_int (Z.to_int x).

Section PlotIdhist.
Context `{PySet Z}.

(** Line 14: the items of every sample's ["data"] dictionary, chained in
    the order of [samples]. *)
Definition chained_items (samples : Dict.t string sample_entry)
  : result (list (Z * list Z)) :=
  per_sample <- mapM (fun sample =>
                        e <- getitem show_string samples sample ;;
                        ret (Dict.items (data e)))
                     (Dict.keys samples) ;;
  ret (concat per_sample).

(** Lines 13-15: the set of all x-values. *)
Definition all_x (samples : Dict.t string sample_entry) : result pyset :=
  its <- chained_items samples ;;
  ret (fold_left (fun s item => set_add s (fst item)) (sorted its) set_empty).

(** Line 33: the inner comprehension, one point per [x in all_x]. *)
Definition series_points (e : sample_entry) (column : nat) (xs : list Z)
  : result (Dict.t Z Z) :=
  pts <- mapM (fun x =>
                 if Dict.mem (data e) x
                 then counts <- getitem show_Z (data e) x ;;
                      c <- index counts column ;;
                      ret (x, c)
                 else ret (x, 0%Z))
              xs ;;
  ret (Dict.of_list pts).

(** Lines 29-37: the dictionary of one [column_type]. *)
Definition series (samples : Dict.t string sample_entry) (xs : pyset)
    (column_type : string) : result (Dict.t string (Dict.t Z Z)) :=
  entries <- mapM (fun sample =>
               cols <- getitem show_string columns_to_plot column_type ;;
               mapM (fun col =>
                       e <- getitem show_string samples sample ;;
                       pts <- series_points e (fst col) (set_iter xs) ;;
                       ret ((sample ++ "." ++ snd col)%string, pts))
                    (Dict.items cols))
             (Dict.keys samples) ;;
  ret (Dict.of_list (concat entries)).

(** Lines 13-38: [plot_data], the list that [plot_idhist] hands to
    [linegraph.plot]. *)
Definition plot_data (samples : Dict.t string sample_entry)
  : result (list (Dict.t string (Dict.t Z Z))) :=
  xs <- all_x samples ;;
  mapM (series samples xs) (Dict.keys columns_to_plot).

(** The plot configuration, lines 40-50, and the call of the host's
    [linegraph.plot], which is not part of these sources. *)
Inductive pvalue : Type :=
| PStr (s : string)
| PLabels (l : list (Dict.t string string)).

Record plot_args_t : Type := mkPlotArgs {
  plot_title : string;
  plot_params_arg : Dict.t string pvalue
}.

Definition plot_params (file_type : string) (plot_args : plot_args_t)
  : Dict.t string pvalue :=
  Dict.update
    [ ("id", PStr ("bbmap-" ++ file_type ++ "_plot")%string);
      ("title", PStr ("BBTools: " ++ plot_title plot_args)%string);
      ("xlab", PStr "Percent identity");
      ("ylab", PStr "Read count");
      ("data_labels",
       PLabels [ [ ("name", "Reads"); ("ylab", "Read count") ];
                 [ ("name", "Bases"); ("ylab", "Number of bases") ] ]) ]
    (plot_params_arg plot_args).

Definition plot_idhist {Plot : Type}
    (linegraph_plot : list (Dict.t string (Dict.t Z Z)) ->
                      Dict.t string pvalue -> Plot)
    (samples : Dict.t string sample_entry) (file_type : string)
    (plot_args : plot_args_t) : result Plot :=
  pd <- plot_data samples ;;
  ret (linegraph_plot pd (plot_params file_type plot_args)).
End PlotIdhist.

(** ** [readqc.py] *)

(** Python's [float]: the conversion [float(s)] ([None] where it raises
    [ValueError]) and the arithmetic the module uses.  The module never looks
    inside a float, so the type and its operations are an interface. *)
Class PyFloat : Type := {
  float : Type;
  float_of_string : string -> option float;
  float_mul : float -> float -> float;
  float_div : float -> float -> float;
  float_1e6 : float;
  float_2 : float
}.

(** The host: sample-name cleaning and sample exclusion of the base class
    (a sample is dropped when its name matches the configured ignore
    patterns, [sample_ignored]), and the display settings of [config]. *)
Class Host `{PyFloat} : Type := {
  clean_s_name : string -> string -> string;
  sample_ignored : string -> bool;
  read_count_prefix : string;
  read_count_multiplier : float;
  cluster_count_prefix : string;
  cluster_count_multiplier : float;
  base_count_prefix : string;
  base_count_multiplier : float
}.

Section ReadQC.
Context `{Host}.

(** A value of a sample's row: a float, or the raw string. *)
Inductive value : Type :=
| VFloat (x : float)
| VStr (s : string).

(** A field of a column header; [HModify m] is [lambda x: x * m]. *)
Inductive hvalue : Type :=
| HStr (s : string)
| HInt (n : Z)
| HModify (m : float).

Definition row : Type := Dict.t string value.
Definition qcml_t : Type := Dict.t string (Dict.t string string).
Definition qcdata_t : Type := Dict.t string row.
Definition headers_t : Type := Dict.t string (Dict.t string hvalue).

(** Lines 33-36: [float(value)], or the string itself on [ValueError]. *)
Definition coerce (v : string) : value :=
  match float_of_string v with
  | Some x => VFloat x
  | None => VStr v
  end.

(** Lines 43-48. *)
Definition add_attribute (qcml : qcml_t) (parameter_name : string)
    (content : Element) (attributes : list string) : result qcml_t :=
  foldM (fun (q : qcml_t) (a : string) =>
           entry <- getitem show_string q parameter_name ;;
           let v := match Dict.get (attrib content) a with
                    | Some v => v
                    | None => ""
                    end in
           ret (Dict.set q parameter_name (Dict.set entry a v)))
        attributes qcml.

(** Lines 26-40: the loop body of [parse_qcml_by] for one element, on the
    pair of [parameters] and [self.qcml]. *)
Definition parse_qp (st : row * qcml_t) (qp : Element)
  : result (row * qcml_t) :=
  v <- getitem show_string (attrib qp) "value" ;;
  if startswith v "n/a" then ret st
  else
    n <- getitem show_string (attrib qp) "name" ;;
    let qp_name := re_sub_percentage n in
    let parameters := Dict.set (fst st) qp_name (coerce v) in
    let q := Dict.set (snd st) qp_name Dict.empty in
    q' <- add_attribute q qp_name qp ["description"; "accession"] ;;
    ret (parameters, q').

(** Lines 20-41.  [qcml_contents] is given as the element tree that
    [fromstring] returns for it; the result is the returned [parameters]
    with [self.qcml] as the call leaves it. *)
Definition parse_qcml_by (qcml : qcml_t) (root : Element) (tagname : string)
  : result (row * qcml_t) :=
  foldM parse_qp (findall root tagname) (Dict.empty, qcml).

(** Lines 52-60: [source_files]. *)
Definition collect_source_file (source_files : list string) (qp : Element)
  : result (list string) :=
  v <- getitem show_string (attrib qp) "value" ;;
  if startswith v "n/a" then ret source_files
  else
    n <- getitem show_string (attrib qp) "name" ;;
    if String.eqb n "source file" then ret (source_files ++ [v])
    else ret source_files.

Definition source_files_of (root : Element) : result (list string) :=
  foldM collect_source_file (findall root "metaDataParameter") [].

(** Lines 63-69: the flags [(r1_exist, r2_exist)]. *)
Definition check_reads (flags : bool * bool) (source_file : string)
  : bool * bool :=
  if contains "R1" source_file then (true, snd flags)
  else if contains "R2" source_file then (fst flags, true)
  else flags.

(** Lines 62-75. *)
Definition read_type_of (source_files : list string) : string :=
  let flags := fold_left check_reads source_files (false, false) in
  if andb (fst flags) (snd flags) then "paired-end"
  else if orb (fst flags) (snd flags) then "single"
  else "unknown".

(** Lines 50-75. *)
Definition get_read_type (root : Element) : result string :=
  source_files <- source_files_of root ;;
  ret (read_type_of source_files).

(** [self.qcml[key]['description']]. *)
Definition description_item (qcml : qcml_t) (key : string) : result string :=
  entry <- getitem show_string qcml key ;;
  getitem show_string entry "description".

(** Lines 77-84: one key gives its description; any other number of keys
    gives an HTML list of the descriptions. *)
Definition make_description (qcml : qcml_t) (keynames : list string)
  : result string :=
  match keynames with
  | [key] => description_item qcml key
  | _ =>
      lis <- mapM (fun key =>
                     d <- description_item qcml key ;;
                     ret ("<li>" ++ d ++ "</li>")%string)
                  keynames ;;
      ret ("<ul>" ++ String.concat "" lis ++ "</ul>")%string
  end.

(** Lines 87-95. *)
Definition dict_ordered_subset {V : Type} (d : Dict.t string V)
    (ks : list string) : Dict.t string V :=
  fold_left (fun od k =>
               match Dict.get d k with
               | Some v => Dict.set od k v
               | None => od
               end)
            ks Dict.empty.

(** A file as [find_log_files] yields it, its contents parsed. *)
Record log_file : Type := mkLogFile {
  s_name : string;
  root : string;
  f : Element
}.

(** [self.qcml], [self.qcdata], [self.read_types]. *)
Record module_state : Type := mkState {
  qcml : qcml_t;
  qcdata : qcdata_t;
  read_types : Dict.t string string
}.

Definition initial_state : module_state :=
  mkState Dict.empty Dict.empty Dict.empty.

(** Lines 112-116: the loop body for one file. *)
Definition parse_file (st : module_state) (lf : log_file)
  : result module_state :=
  let name := clean_s_name (s_name lf) (root lf) in
  parsed <- parse_qcml_by (qcml st) (f lf) "qualityParameter" ;;
  rt <- get_read_type (f lf) ;;
  ret (mkState (snd parsed)
               (Dict.set (qcdata st) name (fst parsed))
               (Dict.set (read_types st) name rt)).

Definition parse_files (files : list log_file) : result module_state :=
  foldM parse_file files initial_state.

(** Line 118: [ignore_samples] of the base class. *)
Definition ignore_samples (d : qcdata_t) : qcdata_t :=
  filter (fun kv => negb (sample_ignored (fst kv))) d.

(** [v * 1e6] and [v / 2]: a string operand raises [TypeError]. *)
Definition times_1e6 (v : value) : result value :=
  match v with
  | VFloat x => ret (VFloat (float_mul x float_1e6))
  | VStr _ => raise TypeError
  end.

Definition halved (v : value) : result value :=
  match v with
  | VFloat x => ret (VFloat (float_div x float_2))
  | VStr _ => raise TypeError
  end.

(** Lines 134-142: the loop body for one sample. *)
Definition derive_row (rts : Dict.t string string) (name : string) (kv : row)
  : result row :=
  mb <- getitem show_string kv "bases sequenced (MB)" ;;
  bases <- times_1e6 mb ;;
  let kv1 := Dict.set kv "bases sequenced" bases in
  rt <- getitem show_string rts name ;;
  kv2 <- (if String.eqb rt "single" then
            rc <- getitem show_string kv1 "read count" ;;
            ret (Dict.set kv1 "cluster count" rc)
          else if String.eqb rt "paired-end" then
            rc <- getitem show_string kv1 "read count" ;;
            half <- halved rc ;;
            ret (Dict.set kv1 "cluster count" half)
          else ret kv1) ;;
  popitem show_string kv2 "bases sequenced (MB)".

(** Lines 124-131: the metadata of the two derived columns. *)
Definition derive_qcml (q : qcml_t) : result qcml_t :=
  q1 <- popitem show_string q "bases sequenced (MB)" ;;
  let q2 := Dict.set q1 "bases sequenced"
              [("description", "Bases sequenced in total.")] in
  ret (Dict.set q2 "cluster count"
         [("description", "Total number of clusters.")]).

(** Lines 133-142. *)
Definition derive_rows (rts : Dict.t string string) (d : qcdata_t)
  : result qcdata_t :=
  mapM (fun item => kv <- derive_row rts (fst item) (snd item) ;;
                    ret (fst item, kv))
       (Dict.items d).

(** Lines 145-149. *)
Definition base_headers (q : qcml_t) : result headers_t :=
  hs <- mapM (fun item =>
                d <- getitem show_string (snd item) "description" ;;
                ret (fst item,
                     [ ("namespace", HStr "ReadQC");
                       ("title", HStr (fst item));
                       ("description", HStr d) ]))
             (Dict.items q) ;;
  ret (Dict.of_list hs).

(** [headers[key].update(fields)]. *)
Definition update_header (hs : headers_t) (key : string)
    (fields : list (string * hvalue)) : result headers_t :=
  h <- getitem show_string hs key ;;
  ret (Dict.set hs key (Dict.update h fields)).

(** Lines 145-163. *)
Definition make_headers (q : qcml_t) : result headers_t :=
  h0 <- base_headers q ;;
  h1 <- update_header h0 "read count"
          [ ("suffix", HStr read_count_prefix); ("format", HStr "{:,.2f}");
            ("modify", HModify read_count_multiplier);
            ("scale", HStr "Purples"); ("placement", HInt 10) ] ;;
  h2 <- update_header h1 "cluster count"
          [ ("suffix", HStr cluster_count_prefix); ("format", HStr "{:,.2f}");
            ("modify", HModify cluster_count_multiplier);
            ("scale", HStr "Purples"); ("placement", HInt 20) ] ;;
  h3 <- update_header h2 "bases sequenced"
          [ ("suffix", HStr base_count_prefix); ("format", HStr "{:,.2f}");
            ("modify", HModify base_count_multiplier);
            ("scale", HStr "Blues"); ("placement", HInt 30) ] ;;
  h4 <- update_header h3 "gc content %"
          [ ("suffix", HStr "%"); ("format", HStr "{:,.2f}");
            ("max", HInt 100); ("scale", HStr "Spectral");
            ("placement", HInt 40) ] ;;
  h5 <- update_header h4 "Q20 read %"
          [ ("suffix", HStr "%"); ("format", HStr "{:,.2f}");
            ("max", HInt 100); ("scale", HStr "Reds");
            ("placement", HInt 50) ] ;;
  h6 <- update_header h5 "Q30 base %"
          [ ("suffix", HStr "%"); ("format", HStr "{:,.2f}");
            ("max", HInt 100); ("scale", HStr "Oranges");
            ("placement", HInt 60) ] ;;
  h7 <- update_header h6 "read length"
          [ ("suffix", HStr "bp"); ("format", HStr "{:,.0f}");
            ("scale", HStr "Greens"); ("placement", HInt 70) ] ;;
  update_header h7 "no base call %"
          [ ("suffix", HStr "%"); ("format", HStr "{:,.2f}");
            ("floor", HInt 1); ("scale", HStr "BuGn") ].

(** What [__init__] hands to the host: the rows and the headers of the
    overview table, and the headers of the general-statistics columns. *)
Record report : Type := mkReport {
  report_qcml : qcml_t;
  report_qcdata : qcdata_t;
  report_headers : headers_t;
  report_general_headers : headers_t
}.

(** Lines 124-183, entered once the table is known not to be empty. *)
Definition derive_and_build (st : module_state) (d : qcdata_t)
  : result report :=
  q <- derive_qcml (qcml st) ;;
  d' <- derive_rows (read_types st) d ;;
  hs <- make_headers q ;;
  ret (mkReport q d' hs
         (dict_ordered_subset hs
            ["read count"; "bases sequenced"; "gc content %"])).

(** Lines 100-183: [MultiqcModule.__init__]. *)
Definition MultiqcModule_init (files : list log_file) : result report :=
  st <- parse_files files ;;
  let d := ignore_samples (qcdata st) in
  if Nat.eqb (Dict.len d) 0 then raise UserWarning
  else derive_and_build st d.
End ReadQC.

(** ** Instances of the interfaces, for evaluating the model *)

(** A hash table of eight slots that holds small integers that are not
    negative: an integer hashes to itself, its slot is the low three bits,
    and iteration goes through the slots in order.  CPython's [set] is such a
    table while it holds at most four elements of different slots.  Elements
    of one slot are kept in the order in which they were added. *)
Module SlotSet.
Definition slot (x : Z) : Z := Z.land x 7.

Fixpoint place (a : Z) (l : list Z) : list Z :=
  match l with
  | [] => [a]
  | b :: l' => if (slot a <? slot b)%Z then a :: l else b :: place a l'
  end.

Definition add (l : list Z) (a : Z) : list Z :=
  if existsb (Z.eqb a) l then l else place a l.

(** The set is the list of the additions made to it; iterating it fills
    the table in that order and reads it out. *)
Definition iter (s : list Z) : list Z := fold_left add s [].
End SlotSet.

(** Floats as exact rationals, with [float] reading plain decimal numerals
    (an optional sign, digits, an optional fraction). *)
Module DecimalFloat.
Definition digit (c : ascii) : option Z :=
  let n := nat_of_ascii c in
  if andb (Nat.leb 48 n) (Nat.leb n 57) then Some (Z.of_nat (n - 48))
  else None.

(** Digits of the fraction: numerator so far and the power of ten. *)
Fixpoint fraction (s : string) (num : Z) (den : positive) : option Q :=
  match s with
  | EmptyString => Some (Qred (Qmake num den))
  | String c s' =>
      match digit c with
      | Some d => fraction s' (10 * num + d)%Z (10 * den)%positive
      | None => None
      end
  end.

Fixpoint whole (s : string) (num : Z) : option Q :=
  match s with
  | EmptyString => Some (Qmake num 1)
  | String c s' =>
      if Ascii.eqb c "."%char then fraction s' num 1
      else match digit c with
           | Some d => whole s' (10 * num + d)%Z
           | None => None
           end
  end.

Definition unsigned (s : string) : option Q :=
  match s with
  | EmptyString => None
  | String c _ =>
      match digit c with
      | Some _ => whole s 0
      | None => None
      end
  end.

Definition of_string (s : string) : option Q :=
  match s with
  | String "-"%char s' => option_map Qopp (unsigned s')
  | _ => unsigned s
  end.

#[export] Instance Q_PyFloat : PyFloat := {|
  float := Q;
  float_of_string := of_string;
  float_mul := fun a b => Qred (Qmult a b);
  float_div := fun a b => Qred (Qdiv a b);
  float_1e6 := Qmake 1000000 1;
  float_2 := Qmake 2 1
|}.

(** A host that keeps the sample names as they are and ignores the samples
    whose name starts with ["skip"]. *)
#[export] Instance plain_Host : Host := {|
  clean_s_name := fun s _ => s;
  sample_ignored := fun s => startswith s "skip";
  read_count_prefix := "M";
  read_count_multiplier := Qmake 1 1000000;
  cluster_count_prefix := "M";
  cluster_count_multiplier := Qmake 1 1000000;
  base_count_prefix := "Mb";
  base_count_multiplier := Qmake 1 1000000
|}.
End DecimalFloat.

(** ** Vocabulary of the statements *)

(** How [get_read_type] counts a source file: as a file of first reads when
    its name contains ["R1"], and otherwise as a file of second reads when it
    contains ["R2"]. *)
Definition r1_file (source_file : string) : Prop :=
  contains "R1" source_file = true.

Definition r2_file (source_file : string) : Prop :=
  contains "R1" source_file = false /\ contains "R2" source_file = true.

(** The union of the x-values of all samples. *)
Definition in_union (samples : Dict.t string sample_entry) (x : Z) : Prop :=
  exists sample e,
    Dict.get samples sample = Some e /\ Dict.mem (data e) x = true.

(** Every list of counts has its two entries, the reads and the bases. *)
Definition well_shaped (samples : Dict.t string sample_entry) : bool :=
  forallb (fun se =>
             forallb (fun item => Nat.leb 2 (length (snd item)))
                     (data (snd se)))
          samples.

(** The count of one column at [x], and 0 where the sample has no [x]. *)
Definition point (e : sample_entry) (column : nat) (x : Z) : Z :=
  match Dict.get (data e) x with
  | Some counts => nth column counts 0%Z
  | None => 0%Z
  end.

Section PlotVocabulary.
Context `{PySet Z}.

Implicit Types (samples : Dict.t string sample_entry) (e : sample_entry).

(** The items of a sample, or of none. *)
Definition items_of samples (sample : string) : list (Z * list Z) :=
  match Dict.get samples sample with
  | Some e => Dict.items (data e)
  | None => []
  end.

(** The mapping that the comprehension builds for one sample. *)
Definition points_of samples (xs : pyset) (column : nat) (sample : string)
  : Dict.t Z Z :=
  match Dict.get samples sample with
  | Some e =>
      Dict.of_list (map (fun x => (x, point e column x)) (set_iter xs))
  | None => Dict.empty
  end.

(** What one series holds, for the column [column]. *)
Definition series_of samples (column : nat)
    (series : Dict.t string (Dict.t Z Z)) : Prop :=
  (forall key m, Dict.get series key = Some m ->
                 forall x, In x (Dict.keys m) <-> in_union samples x) /\
  (forall sample e,
      Dict.get samples sample = Some e ->
      exists m,
        Dict.get series (sample ++ ".Count")%string = Some m /\
        (forall x, in_union samples x ->
                   Dict.get m x = Some (point e column x)) /\
        (forall x, in_union samples x -> Dict.mem (data e) x = false ->
                   Dict.get m x = Some 0%Z)).

(** Every list of counts that a sample has under an x has its two
    entries. *)
Definition counts_complete samples : Prop :=
  forall sample e x counts,
    Dict.get samples sample = Some e ->
    Dict.get (data e) x = Some counts ->
    (2 <= length counts)%nat.

(** The dictionary of one column, as the comprehension builds it. *)
Definition column_series samples (xs : pyset) (column : nat)
  : Dict.t string (Dict.t Z Z) :=
  Dict.of_list
    (map (fun sample =>
            ((sample ++ ".Count")%string, points_of samples xs column sample))
         (Dict.keys samples)).
End PlotVocabulary.

Section ReadQCVocabulary.
Context `{Host}.

(** The metadata entry that lines 39-40 leave for an element. *)
Definition metadata_of (qp : Element) : Dict.t string string :=
  [ ("description",
     match Dict.get (attrib qp) "description" with
     | Some v => v
     | None => ""
     end);
    ("accession",
     match Dict.get (attrib qp) "accession" with
     | Some v => v
     | None => ""
     end) ].

(** While the files are parsed, every key of a row has its entry in
    [self.qcml]. *)
Definition rows_covered (st : module_state) : Prop :=
  forall name kv k,
    Dict.get (qcdata st) name = Some kv ->
    In k (Dict.keys kv) -> In k (Dict.keys (qcml st)).

(** The entry of every name of the row has the two attributes. *)
Definition entries_complete (st : row * qcml_t) : Prop :=
  forall k, In k (Dict.keys (fst st)) ->
            exists d a, Dict.get (snd st) k
                        = Some [("description", d); ("accession", a)].

(** The entries of the names that the row does not have are those of
    before. *)
Definition others_kept (q : qcml_t) (st : row * qcml_t) : Prop :=
  forall k, ~ In k (Dict.keys (fst st)) -> Dict.get (snd st) k = Dict.get q k.

(** The metadata table has no key twice, and every entry has a
    description. *)
Definition qcml_ok (q : qcml_t) : Prop :=
  NoDup (Dict.keys q) /\
  forall k entry, In (k, entry) q ->
                  exists d, Dict.get entry "description" = Some d.

Definition state_ok (st : module_state) : Prop :=
  qcml_ok (qcml st) /\
  NoDup (Dict.keys (qcdata st)) /\
  rows_covered st.

(** A header table whose columns carry the namespace, their own key as the
    title, and the description of their metadata entry. *)
Definition headers_ok (q : qcml_t) (hs : headers_t) : Prop :=
  forall k h,
    Dict.get hs k = Some h ->
    Dict.get h "namespace" = Some (HStr "ReadQC") /\
    Dict.get h "title" = Some (HStr k) /\
    exists entry d,
      Dict.get q k = Some entry /\
      Dict.get entry "description" = Some d /\
      Dict.get h "description" = Some (HStr d).
End ReadQCVocabulary.


(** A metadata entry that [make_description] can use. *)
Definition described (qcml : Dict.t string (Dict.t string string))
    (key : string) : Prop :=
  exists entry d, Dict.get qcml key = Some entry /\
                  Dict.get entry "description" = Some d.

(** The names of a list, each at the place of its first occurrence. *)
Definition first_occurrences (names : list string) : list string :=
  fold_left (fun acc name =>
               if existsb (String.eqb name) acc then acc else acc ++ [name])
            names [].

(** The columns that lines 150-163 give display settings to, besides the two
    derived ones. *)
Definition required_columns : list string :=
  [ "read count"; "gc content %"; "Q20 read %"; "Q30 base %"; "read length";
    "no base call %" ].

Section ReturnVocabulary.
Context `{Host}.

End ReturnVocabulary.

(** [UserWarning] is raised in one place only. *)
Definition never_warns {A : Type} (m : result A) : Prop :=
  m <> inl UserWarning.

(** The histogram of one sample with the x-values 1 and 8. *)
Definition one_and_eight : Dict.t string sample_entry :=
  [ ("s", mkSample [ (1%Z, [10%Z; 1000%Z]); (8%Z, [20%Z; 2000%Z]) ]) ].

(** Two samples with different x-values. *)
Definition two_histograms : Dict.t string sample_entry :=
  [ ("s", mkSample [ (1%Z, [10%Z; 1000%Z]); (2%Z, [20%Z; 2000%Z]) ]);
    ("t", mkSample [ (2%Z, [5%Z; 500%Z]); (3%Z, [7%Z; 700%Z]) ]) ].

(** ** Example documents *)

Module Examples.
Import DecimalFloat.

(** [<qualityParameter name=... value=.../>] and
    [<metaDataParameter name=... value=.../>]. *)
Definition qp (name value : string) : Element :=
  mkElement (qcml_ns ++ "qualityParameter")
            [("name", name); ("value", value)] [].

Definition md (name value : string) : Element :=
  mkElement (qcml_ns ++ "metaDataParameter")
            [("name", name); ("value", value)] [].

(** A qcML document with one [runQuality] that holds [es]. *)
Definition doc (es : list Element) : Element :=
  mkElement (qcml_ns ++ "qcML") []
    [ mkElement (qcml_ns ++ "runQuality") [("ID", "rq0001")] es ].

(** The parameters that ReadQC writes. *)
Definition readqc_parameters (read_count : string) : list Element :=
  [ qp "read count" read_count;
    qp "read length" "151";
    qp "Q20 read percentage" "97.5";
    qp "Q30 base percentage" "93.25";
    qp "no base call percentage" "0.5";
    qp "gc content percentage" "41.5";
    qp "bases sequenced (MB)" "2.5" ].

Definition paired_doc : Element :=
  doc (md "source file" "a_R1.fastq" :: md "source file" "a_R2.fastq"
       :: readqc_parameters "100").

Definition single_doc : Element :=
  doc (md "source file" "b_R1.fastq" :: readqc_parameters "100"
       ++ [qp "adapter percentage" "1.5"]).

Definition unknown_doc : Element :=
  doc (md "source file" "c.fastq" :: readqc_parameters "100").

Definition unknown_doc_with_clusters : Element :=
  doc (md "source file" "c.fastq" :: qp "cluster count" "7"
       :: readqc_parameters "100").

Definition both_in_one_doc : Element :=
  doc [ md "source file" "a_R1_R2.fastq" ].

Definition duplicate_name_doc : Element :=
  doc [ qp "read count" "n/a (not computed)"; qp "read count" "100" ].

Definition only_na_doc : Element :=
  doc [ qp "read count" "n/a (not computed)"; qp "read length" "151" ].

Definition upper_na_doc : Element :=
  doc [ md "source file" "N/A_R1.fastq"; qp "read count" "N/A" ].

Definition newline_name_doc : Element :=
  doc [ qp ("gc percentage" ++ newline)%string "41.5" ].

Definition file (name : string) (d : Element) : log_file :=
  mkLogFile name "." d.

Definition three_samples : list log_file :=
  [ file "a" paired_doc; file "b" single_doc; file "c" unknown_doc ].

Definition excluded_sample : list log_file :=
  [ file "skip1" paired_doc ].

Definition clusters_sample : list log_file :=
  [ file "c" unknown_doc_with_clusters ].

(** What the model computes for these files. *)
Definition state_of (files : list log_file) : module_state :=
  match parse_files files with
  | inr st => st
  | inl _ => initial_state
  end.

Definition report_of (files : list log_file) : report :=
  match MultiqcModule_init files with
  | inr out => out
  | inl _ => mkReport Dict.empty Dict.empty Dict.empty Dict.empty
  end.

Definition row_of (d : qcdata_t) (name : string) : row :=
  match Dict.get d name with
  | Some kv => kv
  | None => Dict.empty
  end.

Definition three_samples_state : module_state :=
  Eval vm_compute in state_of three_samples.

Definition three_samples_report : report :=
  Eval vm_compute in report_of three_samples.

Definition excluded_sample_state : module_state :=
  Eval vm_compute in state_of excluded_sample.

Definition clusters_sample_report : report :=
  Eval vm_compute in report_of clusters_sample.

Definition parsed_row (name : string) : row :=
  row_of (qcdata three_samples_state) name.

Definition final_row (name : string) : row :=
  row_of (report_qcdata three_samples_report) name.
End Examples.

(** ** More examples *)

Module MoreExamples.
Import DecimalFloat Examples.

(** What [plot_data] gives for [two_histograms]. *)
Definition two_histograms_plot : list (Dict.t string (Dict.t Z Z)) :=
  [ [ ("s.Count", [ (1, 10); (2, 20); (3, 0) ]%Z);
      ("t.Count", [ (1, 0); (2, 5); (3, 7) ]%Z) ];
    [ ("s.Count", [ (1, 1000); (2, 2000); (3, 0) ]%Z);
      ("t.Count", [ (1, 0); (2, 500); (3, 700) ]%Z) ] ].

(** A metadata table that an earlier file has left. *)
Definition earlier_qcml : qcml_t :=
  [ ("insert size", [("description", "Mean insert size.");
                     ("accession", "QC:2000023")]) ].

Definition paired_parsed : row * qcml_t :=
  Eval vm_compute in
    match parse_qcml_by Dict.empty paired_doc "qualityParameter" with
    | inr parsed => parsed
    | inl _ => (Dict.empty, Dict.empty)
    end.

Definition duplicate_parsed : row * qcml_t :=
  Eval vm_compute in
    match parse_qcml_by Dict.empty duplicate_name_doc "qualityParameter" with
    | inr parsed => parsed
    | inl _ => (Dict.empty, Dict.empty)
    end.

Definition only_na_parsed : row * qcml_t :=
  Eval vm_compute in
    match parse_qcml_by earlier_qcml only_na_doc "qualityParameter" with
    | inr parsed => parsed
    | inl _ => (Dict.empty, Dict.empty)
    end.

(** Sample ["a"] comes twice, first single-end and then paired-end. *)
Definition repeated_sample : list log_file :=
  [ file "a" single_doc; file "a" paired_doc; file "b" single_doc ].

Definition repeated_sample_state : module_state :=
  Eval vm_compute in state_of repeated_sample.

Definition read_count_header : Dict.t string hvalue :=
  Eval vm_compute in
    match Dict.get (report_headers three_samples_report) "read count" with
    | Some h => h
    | None => Dict.empty
    end.

Definition my_plot_args : plot_args_t :=
  mkPlotArgs "Identity" [ ("title", PStr "My title") ].
End MoreExamples.

(** * Properties *)

(** ** The exception monad *)

Lemma bind_inr {A B : Type} (m : result A) (k : A -> result B) (b : B) :
  bind m k = inr b -> exists a, m = inr a /\ k a = inr b.
Proof.
  destruct m as [e | a]; simpl; intros Hb; [discriminate | eauto].
Qed.

Lemma mapM_inr {A B : Type} (f : A -> result B) (l : list A) (bs : list B) :
  mapM f l = inr bs -> Forall2 (fun a b => f a = inr b) l bs.
Proof.
  revert bs; induction l as [| a l IH]; simpl; intros bs Hm.
  - injection Hm as <-. constructor.
  - apply bind_inr in Hm as [b [Hb Hm]].
    apply bind_inr in Hm as [bs' [Hbs Hm]].
    injection Hm as <-. constructor; auto.
Qed.

Lemma mapM_pure {A B : Type} (f : A -> result B) (g : A -> B) (l : list A) :
  (forall a, In a l -> f a = inr (g a)) -> mapM f l = inr (map g l).
Proof.
  induction l as [| a l IH]; simpl; intros Hf; [reflexivity |].
  rewrite Hf by auto. simpl. rewrite IH by auto. reflexivity.
Qed.

Lemma foldM_app {A S : Type} (body : S -> A -> result S) (l1 l2 : list A)
    (s : S) :
  foldM body (l1 ++ l2) s = (s' <- foldM body l1 s ;; foldM body l2 s').
Proof.
  revert s; induction l1 as [| a l1 IH]; simpl; intros s; [reflexivity |].
  destruct (body s a) as [e | s']; simpl; auto.
Qed.

(** ** Dictionaries *)

Section DictFacts.
Context {K V : Type} `{EqKey K}.
Implicit Types (d : Dict.t K V) (k : K) (v : V).

Lemma keqb_refl k : keqb k k = true.
Proof. apply keqb_eq; reflexivity. Qed.

Lemma keqb_neq k k' : k <> k' -> keqb k k' = false.
Proof.
  intros Hne. destruct (keqb k k') eqn:E; [| reflexivity].
  apply keqb_eq in E. contradiction.
Qed.

Lemma get_set_eq d k v : Dict.get (Dict.set d k v) k = Some v.
Proof.
  induction d as [| [k' v'] d IH]; simpl.
  - rewrite keqb_refl; reflexivity.
  - destruct (keqb k' k) eqn:E; simpl; rewrite E; auto.
Qed.

Lemma get_set_neq d k k' v :
  k <> k' -> Dict.get (Dict.set d k v) k' = Dict.get d k'.
Proof.
  intros Hne. induction d as [| [k0 v0] d IH]; simpl.
  - rewrite keqb_neq by assumption; reflexivity.
  - destruct (keqb k0 k) eqn:E; simpl.
    + apply keqb_eq in E; subst k0.
      rewrite keqb_neq by assumption. reflexivity.
    + rewrite IH; reflexivity.
Qed.

Lemma get_remove_eq d k : Dict.get (Dict.remove d k) k = None.
Proof.
  induction d as [| [k' v'] d IH]; simpl; [reflexivity |].
  destruct (keqb k' k) eqn:E; simpl; [assumption |].
  rewrite E; assumption.
Qed.

Lemma get_remove_neq d k k' :
  k <> k' -> Dict.get (Dict.remove d k) k' = Dict.get d k'.
Proof.
  intros Hne. induction d as [| [k0 v0] d IH]; simpl; [reflexivity |].
  destruct (keqb k0 k) eqn:E; simpl.
  - apply keqb_eq in E; subst k0.
    rewrite keqb_neq by assumption. assumption.
  - rewrite IH; reflexivity.
Qed.

Lemma get_Some_In d k v : Dict.get d k = Some v -> In (k, v) d.
Proof.
  induction d as [| [k' v'] d IH]; simpl; [discriminate |].
  destruct (keqb k' k) eqn:E; intros Hg.
  - apply keqb_eq in E; subst k'. injection Hg as <-. auto.
  - auto.
Qed.

Lemma In_keys_get d k : In k (Dict.keys d) -> exists v, Dict.get d k = Some v.
Proof.
  induction d as [| [k' v'] d IH]; simpl; [contradiction |].
  intros [-> | Hin].
  - rewrite keqb_refl; eauto.
  - destruct (keqb k' k); eauto.
Qed.

Lemma get_Some_In_keys d k v : Dict.get d k = Some v -> In k (Dict.keys d).
Proof.
  intros Hg. apply get_Some_In in Hg.
  apply (in_map fst) in Hg. exact Hg.
Qed.

Lemma get_None_keys d k : Dict.get d k = None <-> ~ In k (Dict.keys d).
Proof.
  split.
  - intros Hn Hin. apply In_keys_get in Hin as [v Hv]. congruence.
  - intros Hn. destruct (Dict.get d k) as [v |] eqn:E; [| reflexivity].
    exfalso. eauto using get_Some_In_keys.
Qed.

Lemma mem_true_keys d k : Dict.mem d k = true <-> In k (Dict.keys d).
Proof.
  unfold Dict.mem. destruct (Dict.get d k) as [v |] eqn:E.
  - split; [eauto using get_Some_In_keys | reflexivity].
  - split; [discriminate |]. intros Hin.
    apply In_keys_get in Hin as [v Hv]. congruence.
Qed.

Lemma keys_set d k v k' :
  In k' (Dict.keys (Dict.set d k v)) <-> k' = k \/ In k' (Dict.keys d).
Proof.
  induction d as [| [k0 v0] d IH]; simpl.
  - intuition.
  - destruct (keqb k0 k) eqn:E; simpl.
    + apply keqb_eq in E; subst k0. intuition.
    + rewrite IH. intuition.
Qed.

Lemma keys_remove d k k' :
  In k' (Dict.keys (Dict.remove d k)) <-> k' <> k /\ In k' (Dict.keys d).
Proof.
  unfold Dict.keys, Dict.remove. rewrite !in_map_iff. split.
  - intros [[k0 v0] [Hk Hin]]. simpl in Hk; subst k0.
    apply filter_In in Hin as [Hin Hf]. simpl in Hf. split.
    + intros ->. rewrite keqb_refl in Hf. discriminate.
    + exists (k', v0). auto.
  - intros [Hne [[k0 v0] [Hk Hin]]]. simpl in Hk; subst k0.
    exists (k', v0). split; [reflexivity |].
    apply filter_In. split; [assumption |]. simpl.
    rewrite keqb_neq by assumption. reflexivity.
Qed.

Lemma get_app d1 d2 k :
  Dict.get (d1 ++ d2) k =
  match Dict.get d1 k with
  | Some v => Some v
  | None => Dict.get d2 k
  end.
Proof.
  induction d1 as [| [k' v'] d1 IH]; simpl; [reflexivity |].
  destruct (keqb k' k); auto.
Qed.

(** After [d.update(l)] a key has the value of its last item in [l], or
    the one it had in [d]. *)
Lemma get_update d (l : list (K * V)) k :
  Dict.get (Dict.update d l) k =
  match Dict.get (rev l) k with
  | Some v => Some v
  | None => Dict.get d k
  end.
Proof.
  unfold Dict.update. revert d.
  induction l as [| [k0 v0] l IH]; simpl; intros d; [reflexivity |].
  rewrite IH, get_app. destruct (Dict.get (rev l) k); [reflexivity |].
  simpl. destruct (keqb k0 k) eqn:E.
  - apply keqb_eq in E; subst k0. apply get_set_eq.
  - apply get_set_neq. intros ->. rewrite keqb_refl in E. discriminate.
Qed.

Lemma keys_update d (l : list (K * V)) k :
  In k (Dict.keys (Dict.update d l)) <-> In k (map fst l) \/ In k (Dict.keys d).
Proof.
  unfold Dict.update. revert d.
  induction l as [| [k0 v0] l IH]; simpl; intros d; [intuition |].
  rewrite IH, keys_set. intuition.
Qed.

Lemma keys_of_list (l : list (K * V)) k :
  In k (Dict.keys (Dict.of_list l)) <-> In k (map fst l).
Proof.
  change (Dict.of_list l) with (Dict.update Dict.empty l).
  rewrite keys_update. simpl. intuition.
Qed.

(** A comprehension in which every item of key [k] has the value [v]. *)
Lemma get_of_list (l : list (K * V)) k v :
  In k (map fst l) ->
  (forall v', In (k, v') l -> v' = v) ->
  Dict.get (Dict.of_list l) k = Some v.
Proof.
  intros Hin Hv.
  change (Dict.of_list l) with (Dict.update Dict.empty l).
  rewrite get_update.
  assert (Hr : In k (Dict.keys (rev l))).
  { unfold Dict.keys. rewrite map_rev. apply in_rev.
    rewrite rev_involutive. exact Hin. }
  apply In_keys_get in Hr as [v' Hv']. rewrite Hv'.
  apply get_Some_In in Hv'. apply in_rev in Hv'.
  f_equal. auto.
Qed.

Lemma keys_NoDup_set d k v :
  NoDup (Dict.keys d) -> NoDup (Dict.keys (Dict.set d k v)).
Proof.
  induction d as [| [k0 v0] d IH]; simpl; intros Hnd.
  - constructor; [simpl; tauto | constructor].
  - inversion Hnd as [| ? ? Hnotin Hnd']; subst.
    destruct (keqb k0 k) eqn:E; simpl.
    + constructor; assumption.
    + constructor; [| auto].
      change (~ In k0 (Dict.keys (Dict.set d k v))).
      rewrite keys_set. intros [-> | Hin]; [| contradiction].
      rewrite keqb_refl in E. discriminate.
Qed.
End DictFacts.

(** ** Strings *)

Lemma length_append (s t : string) :
  String.length (s ++ t) = (String.length s + String.length t)%nat.
Proof.
  induction s as [| c s IH]; simpl; [reflexivity | now rewrite IH].
Qed.

Lemma append_assoc (s t u : string) : ((s ++ t) ++ u = s ++ (t ++ u))%string.
Proof.
  induction s as [| c s IH]; simpl; [reflexivity | now rewrite IH].
Qed.

Lemma append_inj_l (s1 s2 t : string) :
  (s1 ++ t = s2 ++ t)%string -> s1 = s2.
Proof.
  revert s2; induction s1 as [| c s1 IH]; intros [| c2 s2] Heq; simpl in Heq.
  - reflexivity.
  - apply (f_equal String.length) in Heq. simpl in Heq.
    rewrite length_append in Heq. lia.
  - apply (f_equal String.length) in Heq. simpl in Heq.
    rewrite length_append in Heq. lia.
  - injection Heq as -> Heq. f_equal. auto.
Qed.

Lemma prefix_append (p s : string) : String.prefix p (p ++ s) = true.
Proof.
  induction p as [| c p IH]; simpl.
  - destruct s; reflexivity.
  - destruct (ascii_dec c c) as [_ | Hne]; [assumption | contradiction].
Qed.

Lemma prefix_inv (p s : string) :
  String.prefix p s = true -> exists rest, s = (p ++ rest)%string.
Proof.
  revert s; induction p as [| c p IH]; intros s Hp.
  - exists s. reflexivity.
  - destruct s as [| c' s]; simpl in Hp; [discriminate |].
    destruct (ascii_dec c c') as [<- | Hne]; [| discriminate].
    apply IH in Hp as [rest ->]. exists rest. reflexivity.
Qed.

(** [p in s] holds exactly when [s] is [pre ++ p ++ post]. *)
Lemma contains_iff (p s : string) :
  contains p s = true <-> exists pre post, s = (pre ++ p ++ post)%string.
Proof.
  split.
  - induction s as [| c s IH]; cbn [contains].
    + destruct (String.prefix p "") eqn:E; [| discriminate].
      intros _. apply prefix_inv in E as [rest ->].
      exists ""%string, rest. reflexivity.
    + destruct (String.prefix p (String c s)) eqn:E.
      * intros _. apply prefix_inv in E as [rest ->].
        exists ""%string, rest. reflexivity.
      * intros Hc. apply IH in Hc as [pre [post ->]].
        exists (String c pre), post. reflexivity.
  - intros [pre [post ->]]. induction pre as [| c pre IH];
      cbn [append contains].
    + destruct (p ++ post)%string eqn:E; cbn [contains];
        rewrite <- E, prefix_append; reflexivity.
    + rewrite IH. destruct (String.prefix p (String c (pre ++ p ++ post)));
        reflexivity.
Qed.


(** Case analysis on the first string comparison of the goal. *)
Ltac case_string_eqb H :=
  match goal with
  | |- context [String.eqb ?a ?b] =>
      destruct (String.eqb_spec a b) as [H | H]
  end.

Ltac length_clash H :=
  apply (f_equal String.length) in H; simpl in H;
  rewrite length_append in H; simpl in H; lia.

Lemma re_sub_percentage_suffix (p : string) :
  re_sub_percentage (p ++ " percentage") = (p ++ " %")%string.
Proof.
  induction p as [| c p IH]; [reflexivity |].
  cbn [append re_sub_percentage].
  case_string_eqb Heq; [length_clash Heq |].
  case_string_eqb Heq'.
  { destruct p; [discriminate Heq' | length_clash Heq']. }
  rewrite IH. reflexivity.
Qed.

Lemma re_sub_percentage_suffix_newline (p : string) :
  re_sub_percentage (p ++ " percentage" ++ newline)
  = (p ++ " %" ++ newline)%string.
Proof.
  induction p as [| c p IH]; [reflexivity |].
  cbn [append re_sub_percentage].
  case_string_eqb Heq; [length_clash Heq |].
  case_string_eqb Heq'; [length_clash Heq' |].
  cbn [append] in IH. rewrite IH. reflexivity.
Qed.

Lemma re_sub_percentage_other (s : string) :
  endswith s " percentage" = false ->
  endswith s (" percentage" ++ newline) = false ->
  re_sub_percentage s = s.
Proof.
  induction s as [| c s IH]; [reflexivity |].
  cbn [endswith re_sub_percentage].
  destruct (String.eqb (String c s) " percentage"); [discriminate |].
  destruct (String.eqb (String c s) (" percentage" ++ newline));
    [discriminate |].
  intros H1 H2. rewrite IH by assumption. reflexivity.
Qed.

Lemma set_set {K V : Type} `{EqKey K} (d : Dict.t K V) (k : K) (v v' : V) :
  Dict.set (Dict.set d k v) k v' = Dict.set d k v'.
Proof.
  induction d as [| [k0 v0] d IH]; simpl.
  - rewrite keqb_refl. reflexivity.
  - destruct (keqb k0 k) eqn:E; simpl; rewrite E; [reflexivity |].
    rewrite IH. reflexivity.
Qed.

(** ** [parse_qcml_by] *)

Section ParseFacts.
Context `{Host}.

Lemma add_attribute_fresh (q : qcml_t) (name : string) (qp : Element) :
  add_attribute (Dict.set q name Dict.empty) name qp
                ["description"; "accession"]
  = inr (Dict.set q name (metadata_of qp)).
Proof.
  unfold add_attribute, getitem. simpl.
  rewrite get_set_eq. simpl. rewrite set_set, get_set_eq. simpl.
  rewrite set_set. reflexivity.
Qed.

(** An element whose value starts with ["n/a"] leaves both tables as they
    are. *)
Lemma parse_qp_skip (st : row * qcml_t) (qp : Element) (v : string) :
  Dict.get (attrib qp) "value" = Some v ->
  startswith v "n/a" = true ->
  parse_qp st qp = inr st.
Proof.
  intros Hv Hna. unfold parse_qp, getitem. rewrite Hv. simpl.
  rewrite Hna. reflexivity.
Qed.

(** Any other element is recorded under its renamed name. *)
Lemma parse_qp_record (st : row * qcml_t) (qp : Element) (v n : string) :
  Dict.get (attrib qp) "value" = Some v ->
  startswith v "n/a" = false ->
  Dict.get (attrib qp) "name" = Some n ->
  parse_qp st qp
  = inr (Dict.set (fst st) (re_sub_percentage n) (coerce v),
         Dict.set (snd st) (re_sub_percentage n) (metadata_of qp)).
Proof.
  intros Hv Hna Hn. unfold parse_qp, getitem. rewrite Hv. simpl.
  rewrite Hna, Hn. simpl. rewrite add_attribute_fresh. reflexivity.
Qed.

(** The two ways in which the loop body returns. *)
Lemma parse_qp_inr (st st' : row * qcml_t) (qp : Element) :
  parse_qp st qp = inr st' ->
  exists v, Dict.get (attrib qp) "value" = Some v /\
    ((startswith v "n/a" = true /\ st' = st) \/
     (startswith v "n/a" = false /\
      exists n, Dict.get (attrib qp) "name" = Some n /\
        st' = (Dict.set (fst st) (re_sub_percentage n) (coerce v),
               Dict.set (snd st) (re_sub_percentage n) (metadata_of qp)))).
Proof.
  intros Hp.
  destruct (Dict.get (attrib qp) "value") as [v |] eqn:Hv.
  2:{ unfold parse_qp, getitem in Hp. rewrite Hv in Hp. discriminate. }
  exists v. split; [reflexivity |].
  destruct (startswith v "n/a") eqn:Hna.
  - left. rewrite (parse_qp_skip st qp v Hv Hna) in Hp.
    injection Hp as <-. auto.
  - right. split; [reflexivity |].
    destruct (Dict.get (attrib qp) "name") as [n |] eqn:Hn.
    + rewrite (parse_qp_record st qp v n Hv Hna Hn) in Hp.
      injection Hp as <-. eauto.
    + unfold parse_qp, getitem in Hp. rewrite Hv in Hp. simpl in Hp.
      rewrite Hna, Hn in Hp. discriminate.
Qed.

(** Both tables only grow. *)
Lemma parse_qp_keys (st st' : row * qcml_t) (qp : Element) (k : string) :
  parse_qp st qp = inr st' ->
  (In k (Dict.keys (fst st)) -> In k (Dict.keys (fst st'))) /\
  (In k (Dict.keys (snd st)) -> In k (Dict.keys (snd st'))).
Proof.
  intros Hp. apply parse_qp_inr in Hp as [v [_ [[_ ->] | [_ [n [_ ->]]]]]].
  - auto.
  - simpl. rewrite !keys_set. auto.
Qed.

Lemma parse_elements_keys (es : list Element) (st st' : row * qcml_t)
    (k : string) :
  foldM parse_qp es st = inr st' ->
  (In k (Dict.keys (fst st)) -> In k (Dict.keys (fst st'))) /\
  (In k (Dict.keys (snd st)) -> In k (Dict.keys (snd st'))).
Proof.
  revert st; induction es as [| qp es IH]; simpl; intros st Hf.
  - injection Hf as <-. auto.
  - apply bind_inr in Hf as [st1 [H1 Hf]].
    apply (parse_qp_keys _ _ _ k) in H1 as [Ha Hb].
    apply IH in Hf as [Hc Hd]. auto.
Qed.

(** Every key of the returned row has a metadata entry. *)
Lemma parse_elements_covered (es : list Element) (st st' : row * qcml_t) :
  foldM parse_qp es st = inr st' ->
  (forall k, In k (Dict.keys (fst st)) -> In k (Dict.keys (snd st))) ->
  forall k, In k (Dict.keys (fst st')) -> In k (Dict.keys (snd st')).
Proof.
  revert st; induction es as [| qp es IH]; simpl; intros st Hf Hcov.
  - injection Hf as <-. assumption.
  - apply bind_inr in Hf as [st1 [H1 Hf]].
    apply (IH st1 Hf).
    apply parse_qp_inr in H1 as [v [_ [[_ ->] | [_ [n [_ ->]]]]]].
    + assumption.
    + simpl. intros k. rewrite !keys_set. intuition.
Qed.

(** A name under which only skipped elements would be recorded is left
    alone in both tables. *)
Lemma parse_elements_untouched (es : list Element) (st st' : row * qcml_t)
    (name : string) :
  foldM parse_qp es st = inr st' ->
  (forall qp v n, In qp es ->
     Dict.get (attrib qp) "value" = Some v ->
     Dict.get (attrib qp) "name" = Some n ->
     re_sub_percentage n = name ->
     startswith v "n/a" = true) ->
  Dict.get (fst st') name = Dict.get (fst st) name /\
  Dict.get (snd st') name = Dict.get (snd st) name.
Proof.
  revert st; induction es as [| qp es IH]; simpl; intros st Hf Hall.
  - injection Hf as <-. auto.
  - apply bind_inr in Hf as [st1 [H1 Hf]].
    apply IH in Hf as [Ha Hb]; [| eauto].
    rewrite Ha, Hb.
    apply parse_qp_inr in H1 as [v [Hv [[_ ->] | [Hna [n [Hn ->]]]]]].
    + auto.
    + assert (Hne : re_sub_percentage n <> name).
      { intros Heq.
        rewrite (Hall qp v n (or_introl eq_refl) Hv Hn Heq) in Hna.
        discriminate. }
      simpl. rewrite !get_set_neq by assumption. auto.
Qed.

(** An element that is not skipped has its name in both tables when the
    loop ends. *)
Lemma parse_elements_recorded (es : list Element) (st st' : row * qcml_t)
    (qp : Element) (v n : string) :
  foldM parse_qp es st = inr st' ->
  In qp es ->
  Dict.get (attrib qp) "value" = Some v ->
  startswith v "n/a" = false ->
  Dict.get (attrib qp) "name" = Some n ->
  In (re_sub_percentage n) (Dict.keys (fst st')) /\
  In (re_sub_percentage n) (Dict.keys (snd st')).
Proof.
  revert st; induction es as [| qp0 es IH]; simpl; intros st Hf Hin Hv Hna Hn.
  - contradiction.
  - apply bind_inr in Hf as [st1 [H1 Hf]].
    destruct Hin as [-> | Hin].
    + rewrite (parse_qp_record st qp v n Hv Hna Hn) in H1.
      injection H1 as <-.
      apply (parse_elements_keys _ _ _ (re_sub_percentage n)) in Hf
        as [Ha Hb].
      simpl in Ha, Hb. rewrite keys_set in Ha. rewrite keys_set in Hb.
      auto.
    + eauto.
Qed.
End ParseFacts.

(** ** [get_read_type] *)

Lemma check_reads_flags (l : list string) (flags : bool * bool) :
  fold_left check_reads l flags
  = (orb (fst flags) (existsb (contains "R1") l),
     orb (snd flags)
         (existsb (fun sf => andb (negb (contains "R1" sf)) (contains "R2" sf))
                  l)).
Proof.
  revert flags; induction l as [| sf l IH]; intros [r1 r2]; simpl.
  - rewrite !orb_false_r. reflexivity.
  - rewrite IH. unfold check_reads.
    destruct (contains "R1" sf); simpl.
    + destruct r1; reflexivity.
    + destruct (contains "R2" sf); simpl; [| reflexivity].
      destruct r2; reflexivity.
Qed.

Lemma collect_source_file_inr (acc acc' : list string) (qp : Element) :
  collect_source_file acc qp = inr acc' ->
  exists v, Dict.get (attrib qp) "value" = Some v /\
    ((startswith v "n/a" = true /\ acc' = acc) \/
     (startswith v "n/a" = false /\
      exists n, Dict.get (attrib qp) "name" = Some n /\
        acc' = if String.eqb n "source file" then acc ++ [v] else acc)).
Proof.
  unfold collect_source_file, getitem. intros Hc.
  destruct (Dict.get (attrib qp) "value") as [v |]; [| discriminate].
  exists v. split; [reflexivity |]. simpl in Hc.
  destruct (startswith v "n/a").
  - left. injection Hc as <-. auto.
  - right. split; [reflexivity |].
    destruct (Dict.get (attrib qp) "name") as [n |]; [| discriminate].
    exists n. split; [reflexivity |]. simpl in Hc.
    destruct (String.eqb n "source file"); injection Hc as <-; reflexivity.
Qed.

Lemma collect_source_files_grow (es : list Element) (acc sfs : list string)
    (x : string) :
  foldM collect_source_file es acc = inr sfs -> In x acc -> In x sfs.
Proof.
  revert acc; induction es as [| qp es IH]; simpl; intros acc Hf Hx.
  - injection Hf as <-. assumption.
  - apply bind_inr in Hf as [acc1 [H1 Hf]]. apply (IH acc1 Hf).
    apply collect_source_file_inr in H1
      as [v [_ [[_ ->] | [_ [n [_ ->]]]]]]; [assumption |].
    destruct (String.eqb n "source file"); [| assumption].
    apply in_or_app. auto.
Qed.

Lemma collect_source_files_In (es : list Element) (acc sfs : list string)
    (qp : Element) (v : string) :
  foldM collect_source_file es acc = inr sfs ->
  In qp es ->
  Dict.get (attrib qp) "value" = Some v ->
  startswith v "n/a" = false ->
  Dict.get (attrib qp) "name" = Some "source file" ->
  In v sfs.
Proof.
  revert acc; induction es as [| qp0 es IH]; simpl; intros acc Hf Hin Hv Hna Hn.
  - contradiction.
  - apply bind_inr in Hf as [acc1 [H1 Hf]].
    destruct Hin as [-> | Hin]; [| eauto].
    apply (collect_source_files_grow _ _ _ v) in Hf; [assumption |].
    unfold collect_source_file, getitem in H1. rewrite Hv in H1. simpl in H1.
    rewrite Hna, Hn in H1. simpl in H1. injection H1 as <-.
    apply in_or_app. simpl. auto.
Qed.

(** A value that begins with ["N/A"], ["N/a"] or ["n/A"] does not start with
    ["n/a"]. *)
Lemma variant_not_skipped (head rest : string) :
  lower head = "n/a" -> head <> "n/a" ->
  startswith (head ++ rest) "n/a" = false.
Proof.
  intros Hl Hne.
  destruct head as [| c1 [| c2 [| c3 [| c4 t]]]]; try discriminate Hl.
  unfold startswith. cbn [append String.prefix].
  destruct (ascii_dec "n" c1) as [<- |]; [| reflexivity].
  destruct (ascii_dec "/" c2) as [<- |]; [| reflexivity].
  destruct (ascii_dec "a" c3) as [<- |]; [| reflexivity].
  exfalso. apply Hne. reflexivity.
Qed.

(** * The claims about [readqc.py]: parsing *)

Section ParseClaims.
Context `{PyFloat}.

(** C1, as the code has it.  [get_read_type] counts every collected source
    file once: as a file of first reads if its name contains ["R1"], and
    otherwise as a file of second reads if it contains ["R2"].  The result
    is ["paired-end"] when some file counts as first reads and some file as
    second reads, ["single"] when files of exactly one kind are there, and
    ["unknown"] when there are none of either kind. *)
Theorem get_read_type_by_file_kind (root : Element) (sfs : list string) :
  source_files_of root = inr sfs ->
  exists rt, get_read_type root = inr rt /\
    let some_r1 := exists sf, In sf sfs /\ r1_file sf in
    let some_r2 := exists sf, In sf sfs /\ r2_file sf in
    (rt = "paired-end" <-> some_r1 /\ some_r2) /\
    (rt = "single" <-> (some_r1 /\ ~ some_r2) \/ (~ some_r1 /\ some_r2)) /\
    (rt = "unknown" <-> ~ some_r1 /\ ~ some_r2).
Proof.
  intros Hs. unfold get_read_type. rewrite Hs. simpl.
  eexists; split; [reflexivity |]. unfold read_type_of.
  rewrite check_reads_flags. simpl.
  set (b1 := existsb (contains "R1") sfs).
  set (b2 := existsb _ sfs).
  assert (H1 : b1 = true <-> exists sf, In sf sfs /\ r1_file sf).
  { unfold b1. rewrite existsb_exists. reflexivity. }
  assert (H2 : b2 = true <-> exists sf, In sf sfs /\ r2_file sf).
  { unfold b2. rewrite existsb_exists. unfold r2_file. split.
    - intros [sf [Hin Hb]]. apply andb_true_iff in Hb as [Ha Hb].
      apply negb_true_iff in Ha. eauto.
    - intros [sf [Hin [Ha Hb]]]. exists sf. split; [assumption |].
      rewrite Ha, Hb. reflexivity. }
  destruct b1, b2; simpl; rewrite <- H1, <- H2;
    repeat split; try discriminate; intuition discriminate.
Qed.

(** C7, as the code has it.  An element whose value starts with ["n/a"]
    records nothing: the loop body leaves both tables as they are.  Its
    (renamed) name is then absent from the returned row, and the metadata
    table has for that name what it had before the call, unless another
    element of the document is recorded under the same name with a value
    that does not start with ["n/a"]. *)
Theorem na_value_records_nothing (q q' : qcml_t) (root : Element)
    (tagname : string) (params : row) (qp : Element) (v n : string) :
  parse_qcml_by q root tagname = inr (params, q') ->
  In qp (findall root tagname) ->
  Dict.get (attrib qp) "value" = Some v ->
  startswith v "n/a" = true ->
  Dict.get (attrib qp) "name" = Some n ->
  (forall st, parse_qp st qp = inr st) /\
  ((forall qp' v' n',
       In qp' (findall root tagname) ->
       Dict.get (attrib qp') "value" = Some v' ->
       Dict.get (attrib qp') "name" = Some n' ->
       re_sub_percentage n' = re_sub_percentage n ->
       startswith v' "n/a" = true) ->
   Dict.get params (re_sub_percentage n) = None /\
   Dict.get q' (re_sub_percentage n) = Dict.get q (re_sub_percentage n)).
Proof.
  intros Hp Hin Hv Hna Hn. split.
  - intros st. exact (parse_qp_skip st qp v Hv Hna).
  - intros Hall. unfold parse_qcml_by in Hp.
    apply (parse_elements_untouched _ _ _ (re_sub_percentage n)) in Hp.
    + simpl in Hp. exact Hp.
    + exact Hall.
Qed.

(** C8, as the code has it.  An element that is not skipped is recorded
    under [re.sub(r' percentage$', ' %', name)]: a name that ends in
    [" percentage"] has that suffix replaced by [" %"]; a name that ends in
    [" percentage"] and one final newline has the [" percentage"] before
    the newline replaced by [" %"]; every other name is recorded
    unchanged. *)
Theorem percentage_suffix_renamed (st : row * qcml_t) (qp : Element)
    (v n : string) :
  Dict.get (attrib qp) "value" = Some v ->
  startswith v "n/a" = false ->
  Dict.get (attrib qp) "name" = Some n ->
  exists recorded,
    parse_qp st qp
    = inr (Dict.set (fst st) recorded (coerce v),
           Dict.set (snd st) recorded (metadata_of qp)) /\
    (forall p, n = (p ++ " percentage")%string ->
               recorded = (p ++ " %")%string) /\
    (forall p, n = (p ++ " percentage" ++ newline)%string ->
               recorded = (p ++ " %" ++ newline)%string) /\
    (endswith n " percentage" = false ->
     endswith n (" percentage" ++ newline) = false ->
     recorded = n).
Proof.
  intros Hv Hna Hn. exists (re_sub_percentage n).
  split; [exact (parse_qp_record st qp v n Hv Hna Hn) |].
  split; [| split].
  - intros p ->. apply re_sub_percentage_suffix.
  - intros p ->. apply re_sub_percentage_suffix_newline.
  - apply re_sub_percentage_other.
Qed.

(** C10.  The skip is case-sensitive.  An element whose value begins with
    a case variant of ["n/a"] other than ["n/a"] itself is not skipped:
    [parse_qcml_by] records it and its metadata, so its name is in the
    returned row and in the metadata table, and [get_read_type] collects
    its value when it is a source file. *)
Theorem na_skip_is_case_sensitive (q : qcml_t) (root : Element)
    (tagname : string) (qp : Element) (head rest n : string) :
  In qp (findall root tagname) ->
  Dict.get (attrib qp) "value" = Some (head ++ rest)%string ->
  Dict.get (attrib qp) "name" = Some n ->
  lower head = "n/a" ->
  head <> "n/a" ->
  startswith (head ++ rest) "n/a" = false /\
  (forall st,
      parse_qp st qp
      = inr (Dict.set (fst st) (re_sub_percentage n)
                      (coerce (head ++ rest)),
             Dict.set (snd st) (re_sub_percentage n) (metadata_of qp))) /\
  (forall params q',
      parse_qcml_by q root tagname = inr (params, q') ->
      Dict.mem params (re_sub_percentage n) = true /\
      Dict.mem q' (re_sub_percentage n) = true) /\
  (forall acc,
      collect_source_file acc qp
      = inr (if String.eqb n "source file"
             then acc ++ [(head ++ rest)%string] else acc)) /\
  (tagname = "metaDataParameter" -> n = "source file" ->
   forall sfs, source_files_of root = inr sfs ->
               In (head ++ rest)%string sfs).
Proof.
  intros Hin Hv Hn Hl Hne.
  pose proof (variant_not_skipped head rest Hl Hne) as Hna.
  split; [exact Hna |]. split; [| split; [| split]].
  - intros st. exact (parse_qp_record st qp _ n Hv Hna Hn).
  - intros params q' Hp. unfold parse_qcml_by in Hp.
    destruct (parse_elements_recorded _ _ _ qp _ n Hp Hin Hv Hna Hn)
      as [Ha Hb].
    simpl in Ha, Hb. rewrite !mem_true_keys. auto.
  - intros acc. unfold collect_source_file, getitem.
    rewrite Hv. simpl. rewrite Hna, Hn. simpl.
    destruct (String.eqb n "source file"); reflexivity.
  - intros -> -> sfs Hs. unfold source_files_of in Hs.
    exact (collect_source_files_In _ _ _ qp _ Hs Hin Hv Hna Hn).
Qed.
End ParseClaims.

Section ParseExamples.
Import DecimalFloat Examples.

(** The theorem of C1 at a pair of files. *)
Lemma get_read_type_by_file_kind_paired :
  source_files_of paired_doc = inr ["a_R1.fastq"; "a_R2.fastq"] /\
  exists rt, get_read_type paired_doc = inr rt /\
    let some_r1 :=
      exists sf, In sf ["a_R1.fastq"; "a_R2.fastq"] /\ r1_file sf in
    let some_r2 :=
      exists sf, In sf ["a_R1.fastq"; "a_R2.fastq"] /\ r2_file sf in
    (rt = "paired-end" <-> some_r1 /\ some_r2) /\
    (rt = "single" <-> (some_r1 /\ ~ some_r2) \/ (~ some_r1 /\ some_r2)) /\
    (rt = "unknown" <-> ~ some_r1 /\ ~ some_r2).
Proof.
  split; [reflexivity |].
  apply (get_read_type_by_file_kind paired_doc). reflexivity.
Defined.

(** C1 as it is stated fails: one source file whose name contains both
    ["R1"] and ["R2"] gives ["single"], not ["paired-end"]. *)
Lemma both_substrings_in_one_file_is_single :
  source_files_of both_in_one_doc = inr ["a_R1_R2.fastq"] /\
  contains "R1" "a_R1_R2.fastq" = true /\
  contains "R2" "a_R1_R2.fastq" = true /\
  get_read_type both_in_one_doc = inr "single" /\
  get_read_type both_in_one_doc <> inr "paired-end".
Proof.
  repeat split; try reflexivity. discriminate.
Qed.

(** The theorem of C7 at a document whose only ["read count"] is
    ["n/a (not computed)"]. *)
Lemma na_value_records_nothing_example :
  let skipped := qp "read count" "n/a (not computed)" in
  (forall st : row * qcml_t, parse_qp st skipped = inr st) /\
  ((forall qp' v' n',
       In qp' (findall only_na_doc "qualityParameter") ->
       Dict.get (attrib qp') "value" = Some v' ->
       Dict.get (attrib qp') "name" = Some n' ->
       re_sub_percentage n' = re_sub_percentage "read count" ->
       startswith v' "n/a" = true) ->
   Dict.get (K:=string) [("read length", VFloat (Qmake 151 1))]
            (re_sub_percentage "read count") = None /\
   Dict.get (K:=string)
            [("read length", metadata_of (qp "read length" "151"))]
            (re_sub_percentage "read count")
   = Dict.get (Dict.empty : qcml_t) (re_sub_percentage "read count")).
Proof.
  apply (na_value_records_nothing Dict.empty _ only_na_doc
           "qualityParameter" _ (qp "read count" "n/a (not computed)")
           "n/a (not computed)" "read count").
  - reflexivity.
  - simpl. auto.
  - reflexivity.
  - reflexivity.
  - reflexivity.
Defined.

(** C7 as it is stated fails: the name of a skipped element is in the
    returned row and in the metadata table when another element of that
    name has a value. *)
Lemma skipped_name_recorded_by_other_element :
  let skipped := qp "read count" "n/a (not computed)" in
  In skipped (findall duplicate_name_doc "qualityParameter") /\
  Dict.get (attrib skipped) "name" = Some "read count" /\
  (exists v, Dict.get (attrib skipped) "value" = Some v /\
             startswith v "n/a" = true) /\
  exists params q',
    parse_qcml_by Dict.empty duplicate_name_doc "qualityParameter"
    = inr (params, q') /\
    Dict.get params "read count" = Some (VFloat (Qmake 100 1)) /\
    Dict.mem q' "read count" = true.
Proof.
  split; [simpl; auto |]. split; [reflexivity |].
  split; [eexists; split; reflexivity |].
  do 2 eexists. split; [reflexivity |]. split; reflexivity.
Qed.

(** The theorem of C8 at ["gc content percentage"]. *)
Lemma percentage_suffix_renamed_example :
  exists recorded,
    parse_qp (Dict.empty, Dict.empty) (qp "gc content percentage" "41.5")
    = inr (Dict.set Dict.empty recorded (coerce "41.5"),
           Dict.set Dict.empty recorded
             (metadata_of (qp "gc content percentage" "41.5"))) /\
    (forall p, "gc content percentage" = (p ++ " percentage")%string ->
               recorded = (p ++ " %")%string) /\
    (forall p,
        "gc content percentage" = (p ++ " percentage" ++ newline)%string ->
        recorded = (p ++ " %" ++ newline)%string) /\
    (endswith "gc content percentage" " percentage" = false ->
     endswith "gc content percentage" (" percentage" ++ newline) = false ->
     recorded = "gc content percentage").
Proof.
  apply (percentage_suffix_renamed (Dict.empty, Dict.empty)
           (qp "gc content percentage" "41.5") "41.5"
           "gc content percentage"); reflexivity.
Defined.

(** C8 as it is stated fails: a name that ends in [" percentage"] and a
    newline does not end in [" percentage"], and it is not recorded
    unchanged. *)
Lemma newline_after_percentage_is_renamed :
  let name := ("gc percentage" ++ newline)%string in
  endswith name " percentage" = false /\
  exists params q',
    parse_qcml_by Dict.empty newline_name_doc "qualityParameter"
    = inr (params, q') /\
    Dict.get params name = None /\
    Dict.get params ("gc %" ++ newline)%string = Some (VFloat (Qmake 83 2)).
Proof.
  split; [reflexivity |].
  do 2 eexists. split; [reflexivity |]. split; reflexivity.
Qed.

(** The theorem of C10 at a value ["N/A"] and a source file
    ["N/A_R1.fastq"]. *)
Lemma na_skip_is_case_sensitive_example :
  let source := md "source file" "N/A_R1.fastq" in
  startswith ("N/A" ++ "_R1.fastq") "n/a" = false /\
  (forall st : row * qcml_t,
      parse_qp st source
      = inr (Dict.set (fst st) (re_sub_percentage "source file")
                      (coerce ("N/A" ++ "_R1.fastq")),
             Dict.set (snd st) (re_sub_percentage "source file")
                      (metadata_of source))) /\
  (forall (params : row) (q' : qcml_t),
      parse_qcml_by Dict.empty upper_na_doc "metaDataParameter"
      = inr (params, q') ->
      Dict.mem params (re_sub_percentage "source file") = true /\
      Dict.mem q' (re_sub_percentage "source file") = true) /\
  (forall acc,
      collect_source_file acc source
      = inr (if String.eqb "source file" "source file"
             then acc ++ [("N/A" ++ "_R1.fastq")%string] else acc)) /\
  ("metaDataParameter" = "metaDataParameter" ->
   "source file" = "source file" ->
   forall sfs, source_files_of upper_na_doc = inr sfs ->
               In ("N/A" ++ "_R1.fastq")%string sfs).
Proof.
  apply (na_skip_is_case_sensitive Dict.empty upper_na_doc
           "metaDataParameter" (md "source file" "N/A_R1.fastq")
           "N/A" "_R1.fastq" "source file").
  - simpl. auto.
  - reflexivity.
  - reflexivity.
  - reflexivity.
  - discriminate.
Defined.
End ParseExamples.

(** ** [MultiqcModule.__init__] *)

Lemma never_warns_ret {A : Type} (a : A) : never_warns (ret a).
Proof. discriminate. Qed.

Lemma never_warns_bind {A B : Type} (m : result A) (k : A -> result B) :
  never_warns m -> (forall a, never_warns (k a)) -> never_warns (bind m k).
Proof.
  unfold never_warns. destruct m as [e | a]; simpl; [| auto].
  intros Hm _ Heq. apply Hm. injection Heq as ->. reflexivity.
Qed.

Lemma never_warns_getitem {K V : Type} `{EqKey K} (show : K -> string)
    (d : Dict.t K V) (k : K) :
  never_warns (getitem show d k).
Proof. unfold getitem. destruct (Dict.get d k); discriminate. Qed.

Lemma never_warns_popitem {K V : Type} `{EqKey K} (show : K -> string)
    (d : Dict.t K V) (k : K) :
  never_warns (popitem show d k).
Proof. unfold popitem. destruct (Dict.get d k); discriminate. Qed.

Lemma never_warns_mapM {A B : Type} (f : A -> result B) (l : list A) :
  (forall a, never_warns (f a)) -> never_warns (mapM f l).
Proof.
  intros Hf. induction l as [| a l IH]; simpl.
  - apply never_warns_ret.
  - apply never_warns_bind; [apply Hf |]. intros b.
    apply never_warns_bind; [apply IH |]. intros bs. apply never_warns_ret.
Qed.

Lemma never_warns_foldM {A S : Type} (body : S -> A -> result S)
    (l : list A) (s : S) :
  (forall s a, never_warns (body s a)) -> never_warns (foldM body l s).
Proof.
  intros Hb. revert s; induction l as [| a l IH]; simpl; intros s.
  - apply never_warns_ret.
  - apply never_warns_bind; auto.
Qed.

(** Goes through a computation and shows that none of its steps raises
    [UserWarning]. *)
Ltac never_warns_steps :=
  repeat first
    [ apply never_warns_ret
    | apply never_warns_getitem
    | apply never_warns_popitem
    | apply never_warns_bind; [| intros ? ]
    | apply never_warns_mapM; intros ?
    | apply never_warns_foldM; intros ? ?
    | match goal with
      | |- never_warns (if ?b then _ else _) => destruct b
      | |- never_warns (match ?v with VFloat _ => _ | VStr _ => _ end) =>
          destruct v
      end
    | discriminate ].

(** A loop keeps what each of its rounds keeps. *)
Lemma foldM_invariant {A S : Type} (body : S -> A -> result S)
    (P : S -> Prop) (l : list A) (s s' : S) :
  (forall s a s', P s -> body s a = inr s' -> P s') ->
  P s -> foldM body l s = inr s' -> P s'.
Proof.
  intros Hstep. revert s; induction l as [| a l IH]; simpl; intros s Hs Hf.
  - injection Hf as <-. assumption.
  - apply bind_inr in Hf as [s1 [H1 Hf]]. eauto.
Qed.

Section InitFacts.
Context `{Host}.

Lemma derive_and_build_never_warns (st : module_state) (d : qcdata_t) :
  never_warns (derive_and_build st d).
Proof.
  unfold derive_and_build, derive_qcml, derive_rows, derive_row, make_headers,
    base_headers, update_header, times_1e6, halved.
  never_warns_steps.
Qed.

Lemma get_ignore_samples (d : qcdata_t) (name : string) (kv : row) :
  Dict.get (ignore_samples d) name = Some kv -> Dict.get d name = Some kv.
Proof.
  unfold ignore_samples.
  induction d as [| [name0 kv0] d IH]; simpl; [discriminate |].
  destruct (sample_ignored name0) eqn:Hi; simpl.
  - intros Hg. destruct (String.eqb_spec name0 name) as [-> | Hne].
    + apply get_Some_In in Hg. apply filter_In in Hg as [_ Hg].
      simpl in Hg. rewrite Hi in Hg. discriminate.
    + auto.
  - destruct (String.eqb name0 name); auto.
Qed.

(** What one round of the loop of lines 133-142 does to a row. *)
Lemma derive_row_inr (rts : Dict.t string string) (name : string)
    (kv kv' : row) :
  derive_row rts name kv = inr kv' ->
  exists x rt kv2,
    Dict.get kv "bases sequenced (MB)" = Some (VFloat x) /\
    Dict.get rts name = Some rt /\
    kv' = Dict.remove kv2 "bases sequenced (MB)" /\
    let kv1 :=
      Dict.set kv "bases sequenced" (VFloat (float_mul x float_1e6)) in
    ((rt = "single" /\
      exists rc, Dict.get kv "read count" = Some rc /\
                 kv2 = Dict.set kv1 "cluster count" rc) \/
     (rt = "paired-end" /\
      exists y, Dict.get kv "read count" = Some (VFloat y) /\
                kv2 = Dict.set kv1 "cluster count"
                        (VFloat (float_div y float_2))) \/
     (rt <> "single" /\ rt <> "paired-end" /\ kv2 = kv1)).
Proof.
  unfold derive_row. intros Hd.
  apply bind_inr in Hd as [mb [Hmb Hd]].
  apply bind_inr in Hd as [bases [Hb Hd]].
  apply bind_inr in Hd as [rt [Hrt Hd]].
  apply bind_inr in Hd as [kv2 [H2 Hd]].
  unfold getitem in Hmb, Hrt.
  destruct (Dict.get kv "bases sequenced (MB)") as [mb' |] eqn:Emb;
    [| discriminate].
  injection Hmb as ->.
  destruct mb as [x | s]; [| discriminate]. injection Hb as <-.
  destruct (Dict.get rts name) as [rt' |] eqn:Ert; [| discriminate].
  injection Hrt as ->.
  exists x, rt, kv2. split; [reflexivity |]. split; [reflexivity |].
  split.
  { unfold popitem in Hd.
    destruct (Dict.get kv2 "bases sequenced (MB)"); [| discriminate].
    injection Hd as <-. reflexivity. }
  cbv zeta.
  assert (Hrc : forall v,
             Dict.get (Dict.set kv "bases sequenced" v) "read count"
             = Dict.get kv "read count").
  { intros v. apply get_set_neq. discriminate. }
  destruct (String.eqb_spec rt "single") as [-> | Hns].
  - left. split; [reflexivity |].
    apply bind_inr in H2 as [rc [Hrc' H2]]. injection H2 as <-.
    unfold getitem in Hrc'. rewrite Hrc in Hrc'.
    destruct (Dict.get kv "read count") as [rc' |]; [| discriminate].
    injection Hrc' as ->. eauto.
  - destruct (String.eqb_spec rt "paired-end") as [-> | Hnp].
    + right; left. split; [reflexivity |].
      apply bind_inr in H2 as [rc [Hrc' H2]].
      apply bind_inr in H2 as [half [Hh H2]]. injection H2 as <-.
      unfold getitem in Hrc'. rewrite Hrc in Hrc'.
      destruct (Dict.get kv "read count") as [rc' |]; [| discriminate].
      injection Hrc' as ->.
      destruct rc as [y | s]; [| discriminate]. injection Hh as <-. eauto.
    + right; right. injection H2 as <-. auto.
Qed.


(** The loop of lines 133-142 goes through the table row by row. *)
Lemma derive_rows_get (rts : Dict.t string string) (d d' : qcdata_t)
    (name : string) :
  derive_rows rts d = inr d' ->
  match Dict.get d name with
  | Some kv => exists kv', Dict.get d' name = Some kv' /\
                           derive_row rts name kv = inr kv'
  | None => Dict.get d' name = None
  end.
Proof.
  unfold derive_rows, Dict.items.
  revert d'; induction d as [| [name0 kv0] d IH]; simpl; intros d' Hd.
  - injection Hd as <-. reflexivity.
  - apply bind_inr in Hd as [item [Hi Hd]].
    apply bind_inr in Hi as [kv0' [Hkv Hi]]. injection Hi as <-.
    apply bind_inr in Hd as [rest [Hr Hd]]. injection Hd as <-.
    simpl. destruct (String.eqb_spec name0 name) as [-> | Hne].
    + eauto.
    + apply IH. assumption.
Qed.
End InitFacts.

Section TableFacts.
Context `{Host}.

(** A run of [__init__] that returns has gone through lines 124-163. *)
Lemma init_inr (files : list log_file) (st : module_state) (out : report) :
  parse_files files = inr st ->
  MultiqcModule_init files = inr out ->
  exists q,
    derive_qcml (qcml st) = inr q /\
    derive_rows (read_types st) (ignore_samples (qcdata st))
    = inr (report_qcdata out) /\
    make_headers q = inr (report_headers out).
Proof.
  intros Hp Hi. unfold MultiqcModule_init in Hi. rewrite Hp in Hi.
  simpl in Hi.
  destruct (Nat.eqb (Dict.len (ignore_samples (qcdata st))) 0);
    [discriminate |].
  unfold derive_and_build in Hi.
  apply bind_inr in Hi as [q [Hq Hi]].
  apply bind_inr in Hi as [d' [Hd Hi]].
  apply bind_inr in Hi as [hs [Hh Hi]].
  injection Hi as <-. simpl. eauto.
Qed.

Lemma derive_qcml_keys (q q' : qcml_t) (k : string) :
  derive_qcml q = inr q' ->
  (In k (Dict.keys q') <->
   (k <> "bases sequenced (MB)" /\ In k (Dict.keys q)) \/
   k = "bases sequenced" \/ k = "cluster count").
Proof.
  unfold derive_qcml, popitem. intros Hd.
  destruct (Dict.get q "bases sequenced (MB)"); [| discriminate].
  simpl in Hd. injection Hd as <-.
  rewrite !keys_set, keys_remove. intuition.
Qed.

Lemma base_headers_keys (q : qcml_t) (hs : headers_t) (k : string) :
  base_headers q = inr hs -> (In k (Dict.keys hs) <-> In k (Dict.keys q)).
Proof.
  unfold base_headers, Dict.items. intros Hb.
  apply bind_inr in Hb as [l [Hl Hb]]. injection Hb as <-.
  rewrite keys_of_list. apply mapM_inr in Hl.
  assert (Hk : map fst l = Dict.keys q).
  { induction Hl as [| item h q0 l0 Hi _ IH]; [reflexivity |].
    apply bind_inr in Hi as [d [_ Hi]]. injection Hi as <-.
    simpl. f_equal. exact IH. }
  unfold Dict.t in *. rewrite Hk. reflexivity.
Qed.

Lemma update_header_keys (hs hs' : headers_t) (key : string)
    (fields : list (string * hvalue)) (k : string) :
  update_header hs key fields = inr hs' ->
  (In k (Dict.keys hs') <-> In k (Dict.keys hs)).
Proof.
  unfold update_header, getitem. intros Hu.
  destruct (Dict.get hs key) as [h |] eqn:Eh; [| discriminate].
  simpl in Hu. injection Hu as <-. rewrite keys_set.
  apply get_Some_In_keys in Eh. split; [| auto].
  intros [-> | Hin]; assumption.
Qed.

(** The header configuration has one column for every key of [self.qcml]. *)
Lemma make_headers_keys (q : qcml_t) (hs : headers_t) (k : string) :
  make_headers q = inr hs -> (In k (Dict.keys hs) <-> In k (Dict.keys q)).
Proof.
  unfold make_headers. intros Hm.
  apply bind_inr in Hm as [h0 [Hbase Hm]].
  apply (base_headers_keys _ _ k) in Hbase. rewrite <- Hbase.
  repeat match type of Hm with
         | bind _ _ = inr _ =>
             let hi := fresh "h" in
             let Hi := fresh "Hu" in
             apply bind_inr in Hm as [hi [Hi Hm]];
             apply (update_header_keys _ _ _ _ k) in Hi
         end.
  apply (update_header_keys _ _ _ _ k) in Hm.
  intuition.
Qed.

(** The keys of a row after the loop of lines 133-142. *)
Lemma derive_row_keys (rts : Dict.t string string) (name : string)
    (kv kv' : row) (rt : string) (k : string) :
  derive_row rts name kv = inr kv' ->
  Dict.get rts name = Some rt ->
  (In k (Dict.keys kv') ->
   k <> "bases sequenced (MB)" /\
   (In k (Dict.keys kv) \/ k = "bases sequenced" \/ k = "cluster count")) /\
  (k <> "bases sequenced (MB)" /\ In k (Dict.keys kv) \/
   k = "bases sequenced" \/
   k = "cluster count" /\ (rt = "single" \/ rt = "paired-end") ->
   In k (Dict.keys kv')).
Proof.
  intros Hd Hrt.
  apply derive_row_inr in Hd as [x [rt' [kv2 [_ [Hrt' [-> Hcase]]]]]].
  rewrite Hrt in Hrt'. injection Hrt' as <-. cbv zeta in Hcase.
  rewrite keys_remove.
  destruct Hcase as [[-> [rc [_ ->]]] | [[-> [y [_ ->]]] | [Hns [Hnp ->]]]];
    rewrite ?keys_set.
  - split; [intuition |].
    intros [[Hne Hin] | [-> | [-> _]]]; split; auto; discriminate.
  - split; [intuition |].
    intros [[Hne Hin] | [-> | [-> _]]]; split; auto; discriminate.
  - split; [intuition |].
    intros [[Hne Hin] | [-> | [-> [-> | ->]]]]; try contradiction;
      split; auto; discriminate.
Qed.

Lemma parse_file_rows_covered (st st' : module_state) (lf : log_file) :
  rows_covered st -> parse_file st lf = inr st' -> rows_covered st'.
Proof.
  unfold parse_file, parse_qcml_by. intros Hcov Hp.
  apply bind_inr in Hp as [parsed [Hq Hp]].
  apply bind_inr in Hp as [rt [_ Hp]]. injection Hp as <-.
  intros name kv k. simpl.
  destruct (String.eqb_spec (clean_s_name (s_name lf) (root lf)) name)
    as [<- | Hne].
  - rewrite get_set_eq. intros Hg Hin. injection Hg as <-.
    apply (parse_elements_covered _ _ _ Hq); [| assumption].
    simpl. contradiction.
  - rewrite get_set_neq by assumption. intros Hg Hin.
    apply (parse_elements_keys _ _ _ k) in Hq as [_ Hgrow].
    apply Hgrow. simpl. eapply Hcov; eassumption.
Qed.

Lemma parse_files_rows_covered (files : list log_file) (st : module_state) :
  parse_files files = inr st -> rows_covered st.
Proof.
  apply (foldM_invariant parse_file rows_covered).
  - intros s a s'. apply parse_file_rows_covered.
  - intros name kv k Hg. discriminate Hg.
Qed.
End TableFacts.

(** * The claims about [readqc.py]: the module *)

Section ModuleClaims.
Context `{Host}.

(** C9.  When the files have been parsed and the table is empty after
    sample exclusion, [__init__] raises [UserWarning], whatever lines
    124-183 would do; when a sample remains, it goes on to lines 124-183,
    and what comes of them is not [UserWarning]. *)
Theorem no_data_signal (files : list log_file) (st : module_state) :
  parse_files files = inr st ->
  (Dict.len (ignore_samples (qcdata st)) = 0%nat ->
   MultiqcModule_init files = inl UserWarning) /\
  (Dict.len (ignore_samples (qcdata st)) <> 0%nat ->
   MultiqcModule_init files
   = derive_and_build st (ignore_samples (qcdata st)) /\
   MultiqcModule_init files <> inl UserWarning).
Proof.
  intros Hp. unfold MultiqcModule_init. rewrite Hp. simpl. split.
  - intros ->. reflexivity.
  - intros Hne. apply Nat.eqb_neq in Hne. rewrite Hne.
    split; [reflexivity |]. apply derive_and_build_never_warns.
Qed.

(** C6.  In a run of [__init__] that returns, a sample whose parsed row
    has ['bases sequenced (MB)'] with the float [v] ends with
    ['bases sequenced'] equal to [v * 1e6] and without
    ['bases sequenced (MB)']. *)
Theorem bases_sequenced_derived (files : list log_file) (st : module_state)
    (out : report) (name : string) (kv : row) (v : float) :
  parse_files files = inr st ->
  MultiqcModule_init files = inr out ->
  Dict.get (ignore_samples (qcdata st)) name = Some kv ->
  Dict.get kv "bases sequenced (MB)" = Some (VFloat v) ->
  exists kv',
    Dict.get (report_qcdata out) name = Some kv' /\
    Dict.get kv' "bases sequenced" = Some (VFloat (float_mul v float_1e6)) /\
    Dict.get kv' "bases sequenced (MB)" = None.
Proof.
  intros Hp Hi Hg Hv.
  destruct (init_inr files st out Hp Hi) as [q [_ [Hrows _]]].
  pose proof (derive_rows_get _ _ _ name Hrows) as Hrow.
  rewrite Hg in Hrow. destruct Hrow as [kv' [Hg' Hd]].
  exists kv'. split; [assumption |].
  apply derive_row_inr in Hd as [x [rt [kv2 [Hx [_ [-> Hcase]]]]]].
  rewrite Hv in Hx. injection Hx as <-. cbv zeta in Hcase.
  split; [| apply get_remove_eq].
  rewrite get_remove_neq by discriminate.
  destruct Hcase as [[_ [rc [_ ->]]] | [[_ [y [_ ->]]] | [_ [_ ->]]]].
  - rewrite get_set_neq by discriminate. apply get_set_eq.
  - rewrite get_set_neq by discriminate. apply get_set_eq.
  - apply get_set_eq.
Qed.

(** C5, as the code has it.  In a run of [__init__] that returns, the
    ['cluster count'] of a sample is its ['read count'] when its read type
    is ["single"], and its ['read count'] divided by 2 when the read type
    is ["paired-end"].  For ["unknown"] the loop does not touch
    ['cluster count']: the row has it only if the qcML file itself has a
    quality parameter of that name, with that parameter's value. *)
Theorem cluster_count_by_read_type (files : list log_file)
    (st : module_state) (out : report) (name : string) (kv : row)
    (rt : string) :
  parse_files files = inr st ->
  MultiqcModule_init files = inr out ->
  Dict.get (ignore_samples (qcdata st)) name = Some kv ->
  Dict.get (read_types st) name = Some rt ->
  exists kv',
    Dict.get (report_qcdata out) name = Some kv' /\
    (rt = "single" ->
     exists rc, Dict.get kv "read count" = Some rc /\
                Dict.get kv' "cluster count" = Some rc) /\
    (rt = "paired-end" ->
     exists y, Dict.get kv "read count" = Some (VFloat y) /\
               Dict.get kv' "cluster count"
               = Some (VFloat (float_div y float_2))) /\
    (rt = "unknown" ->
     Dict.get kv' "cluster count" = Dict.get kv "cluster count").
Proof.
  intros Hp Hi Hg Hrt.
  destruct (init_inr files st out Hp Hi) as [q [_ [Hrows _]]].
  pose proof (derive_rows_get _ _ _ name Hrows) as Hrow.
  rewrite Hg in Hrow. destruct Hrow as [kv' [Hg' Hd]].
  exists kv'. split; [assumption |].
  apply derive_row_inr in Hd as [x [rt' [kv2 [_ [Hrt' [-> Hcase]]]]]].
  rewrite Hrt in Hrt'. injection Hrt' as <-. cbv zeta in Hcase.
  rewrite get_remove_neq by discriminate.
  destruct Hcase as [[-> [rc [Hrc ->]]] | [[-> [y [Hy ->]]] | [Hns [Hnp ->]]]].
  - split; [| split]; try discriminate.
    intros _. exists rc. split; [assumption | apply get_set_eq].
  - split; [| split]; try discriminate.
    intros _. exists y. split; [assumption | apply get_set_eq].
  - split; [contradiction | split; [contradiction |]].
    intros _. apply get_set_neq. discriminate.
Qed.

(** C4, as the code has it.  In a run of [__init__] that returns, every
    key of a sample's row is a key of the header configuration; and a key
    of the header configuration is in the sample's row when it is
    ['bases sequenced'], when it is ['cluster count'] and the sample's read
    type is ["single"] or ["paired-end"], or when the sample's own qcML
    file recorded it. *)
Theorem row_keys_and_header_keys (files : list log_file)
    (st : module_state) (out : report) (name : string) (kv : row)
    (rt : string) :
  parse_files files = inr st ->
  MultiqcModule_init files = inr out ->
  Dict.get (ignore_samples (qcdata st)) name = Some kv ->
  Dict.get (read_types st) name = Some rt ->
  exists kv',
    Dict.get (report_qcdata out) name = Some kv' /\
    (forall k, In k (Dict.keys kv') ->
               In k (Dict.keys (report_headers out))) /\
    (forall k, In k (Dict.keys (report_headers out)) ->
               k = "bases sequenced" \/
               k = "cluster count" /\ (rt = "single" \/ rt = "paired-end") \/
               In k (Dict.keys kv) ->
               In k (Dict.keys kv')).
Proof.
  intros Hp Hi Hg Hrt.
  destruct (init_inr files st out Hp Hi) as [q [Hq [Hrows Hh]]].
  pose proof (derive_rows_get _ _ _ name Hrows) as Hrow.
  rewrite Hg in Hrow. destruct Hrow as [kv' [Hg' Hd]].
  exists kv'. split; [assumption |]. split.
  - intros k Hk.
    apply (make_headers_keys _ _ k Hh). apply (derive_qcml_keys _ _ k Hq).
    destruct (derive_row_keys _ _ _ _ rt k Hd Hrt) as [Hfrom _].
    destruct (Hfrom Hk) as [Hne [Hin | Hnew]]; [| auto].
    left. split; [assumption |].
    apply (parse_files_rows_covered files st Hp name kv k);
      [| assumption].
    apply get_ignore_samples. assumption.
  - intros k Hk Hwhy.
    apply (make_headers_keys _ _ k Hh) in Hk.
    apply (derive_qcml_keys _ _ k Hq) in Hk.
    destruct (derive_row_keys _ _ _ _ rt k Hd Hrt) as [_ Hto].
    apply Hto. destruct Hwhy as [-> | [[-> Hr] | Hin]]; auto.
    left. split; [| assumption].
    destruct Hk as [[Hne _] | [-> | ->]]; [assumption | |]; discriminate.
Qed.
End ModuleClaims.

Section ModuleExamples.
Import DecimalFloat Examples.

(** The theorem of C9 where the only sample is excluded. *)
Lemma no_data_signal_example :
  parse_files excluded_sample = inr excluded_sample_state /\
  (Dict.len (ignore_samples (qcdata excluded_sample_state)) = 0%nat ->
   MultiqcModule_init excluded_sample = inl UserWarning) /\
  (Dict.len (ignore_samples (qcdata excluded_sample_state)) <> 0%nat ->
   MultiqcModule_init excluded_sample
   = derive_and_build excluded_sample_state
       (ignore_samples (qcdata excluded_sample_state)) /\
   MultiqcModule_init excluded_sample <> inl UserWarning).
Proof.
  split; [reflexivity |].
  apply (no_data_signal excluded_sample excluded_sample_state).
  reflexivity.
Defined.

(** Without any file the signal comes before ['bases sequenced (MB)'] is
    looked for in the empty metadata table. *)
Example no_files_no_data :
  MultiqcModule_init [] = inl UserWarning /\
  derive_and_build initial_state Dict.empty
  = inl (KeyError "bases sequenced (MB)").
Proof. split; reflexivity. Qed.

(** The theorem of C6 at 2.5 MB. *)
Lemma bases_sequenced_derived_example :
  parse_files three_samples = inr three_samples_state /\
  MultiqcModule_init three_samples = inr three_samples_report /\
  Dict.get (ignore_samples (qcdata three_samples_state)) "a"
  = Some (parsed_row "a") /\
  Dict.get (parsed_row "a") "bases sequenced (MB)"
  = Some (VFloat (Qmake 5 2)) /\
  exists kv',
    Dict.get (report_qcdata three_samples_report) "a" = Some kv' /\
    Dict.get kv' "bases sequenced"
    = Some (VFloat (float_mul (Qmake 5 2) float_1e6)) /\
    Dict.get kv' "bases sequenced (MB)" = None.
Proof.
  split; [reflexivity |]. split; [reflexivity |].
  split; [reflexivity |]. split; [reflexivity |].
  apply (bases_sequenced_derived three_samples three_samples_state
           three_samples_report "a" (parsed_row "a") (Qmake 5 2));
    reflexivity.
Defined.

Example bases_sequenced_of_2_5_MB :
  MultiqcModule_init three_samples = inr three_samples_report /\
  Dict.get (report_qcdata three_samples_report) "a" = Some (final_row "a") /\
  Dict.get (final_row "a") "bases sequenced"
  = Some (VFloat (Qmake 2500000 1)) /\
  Dict.get (final_row "a") "bases sequenced (MB)" = None.
Proof. repeat split; reflexivity. Qed.

(** The theorem of C5 at a paired-end sample with 100 reads. *)
Lemma cluster_count_by_read_type_example :
  parse_files three_samples = inr three_samples_state /\
  MultiqcModule_init three_samples = inr three_samples_report /\
  Dict.get (ignore_samples (qcdata three_samples_state)) "a"
  = Some (parsed_row "a") /\
  Dict.get (read_types three_samples_state) "a" = Some "paired-end" /\
  exists kv',
    Dict.get (report_qcdata three_samples_report) "a" = Some kv' /\
    ("paired-end" = "single" ->
     exists rc, Dict.get (parsed_row "a") "read count" = Some rc /\
                Dict.get kv' "cluster count" = Some rc) /\
    ("paired-end" = "paired-end" ->
     exists y, Dict.get (parsed_row "a") "read count" = Some (VFloat y) /\
               Dict.get kv' "cluster count"
               = Some (VFloat (float_div y float_2))) /\
    ("paired-end" = "unknown" ->
     Dict.get kv' "cluster count"
     = Dict.get (parsed_row "a") "cluster count").
Proof.
  split; [reflexivity |]. split; [reflexivity |].
  split; [reflexivity |]. split; [reflexivity |].
  apply (cluster_count_by_read_type three_samples three_samples_state
           three_samples_report "a" (parsed_row "a") "paired-end");
    reflexivity.
Defined.

Example cluster_counts_of_100_reads :
  Dict.get (final_row "a") "cluster count" = Some (VFloat (Qmake 50 1)) /\
  Dict.get (final_row "b") "cluster count" = Some (VFloat (Qmake 100 1)) /\
  Dict.get (final_row "c") "cluster count" = None.
Proof. repeat split; reflexivity. Qed.

(** C5 as it is stated fails: a sample of unknown read type whose qcML
    file has a quality parameter ['cluster count'] keeps it in its row. *)
Lemma unknown_read_type_keeps_parsed_cluster_count :
  get_read_type unknown_doc_with_clusters = inr "unknown" /\
  MultiqcModule_init clusters_sample = inr clusters_sample_report /\
  exists kv',
    Dict.get (report_qcdata clusters_sample_report) "c" = Some kv' /\
    Dict.get kv' "cluster count" = Some (VFloat (Qmake 7 1)).
Proof.
  split; [reflexivity |]. split; [reflexivity |].
  eexists. split; reflexivity.
Qed.

(** The theorem of C4 at the sample of unknown read type. *)
Lemma row_keys_and_header_keys_example :
  parse_files three_samples = inr three_samples_state /\
  MultiqcModule_init three_samples = inr three_samples_report /\
  Dict.get (ignore_samples (qcdata three_samples_state)) "c"
  = Some (parsed_row "c") /\
  Dict.get (read_types three_samples_state) "c" = Some "unknown" /\
  exists kv',
    Dict.get (report_qcdata three_samples_report) "c" = Some kv' /\
    (forall k, In k (Dict.keys kv') ->
               In k (Dict.keys (report_headers three_samples_report))) /\
    (forall k, In k (Dict.keys (report_headers three_samples_report)) ->
               k = "bases sequenced" \/
               k = "cluster count" /\
               ("unknown" = "single" \/ "unknown" = "paired-end") \/
               In k (Dict.keys (parsed_row "c")) ->
               In k (Dict.keys kv')).
Proof.
  split; [reflexivity |]. split; [reflexivity |].
  split; [reflexivity |]. split; [reflexivity |].
  apply (row_keys_and_header_keys three_samples three_samples_state
           three_samples_report "c" (parsed_row "c") "unknown");
    reflexivity.
Defined.

(** C4 as it is stated fails: the header configuration has the columns
    ['adapter %'], which only sample ["b"] has a value for, and
    ['cluster count'], which the sample of unknown read type has no value
    for. *)
Lemma header_keys_missing_from_rows :
  MultiqcModule_init three_samples = inr three_samples_report /\
  Dict.get (report_qcdata three_samples_report) "a" = Some (final_row "a") /\
  Dict.get (report_qcdata three_samples_report) "c" = Some (final_row "c") /\
  Dict.get (read_types three_samples_state) "c" = Some "unknown" /\
  In "adapter %" (Dict.keys (report_headers three_samples_report)) /\
  ~ In "adapter %" (Dict.keys (final_row "a")) /\
  In "cluster count" (Dict.keys (report_headers three_samples_report)) /\
  ~ In "cluster count" (Dict.keys (final_row "c")).
Proof.
  split; [reflexivity |]. split; [reflexivity |]. split; [reflexivity |].
  split; [reflexivity |].
  split; [simpl; tauto |]. split.
  { apply get_None_keys. reflexivity. }
  split; [simpl; tauto |].
  apply get_None_keys. reflexivity.
Qed.
End ModuleExamples.

(** ** [plot_idhist] *)

Lemma In_insert_item (a b : Z * list Z) (l : list (Z * list Z)) :
  In b (insert_item a l) <-> b = a \/ In b l.
Proof.
  induction l as [| c l IH]; simpl.
  - intuition.
  - destruct (item_ltb c a); simpl; [rewrite IH |]; intuition.
Qed.

(** [sorted] rearranges its argument, no more. *)
Lemma In_sorted (b : Z * list Z) (l : list (Z * list Z)) :
  In b (sorted l) <-> In b l.
Proof.
  induction l as [| a l IH]; simpl; [reflexivity |].
  rewrite In_insert_item, IH. intuition.
Qed.

Lemma In_update_items {K V : Type} `{EqKey K} (l : list (K * V))
    (d : Dict.t K V) (kv : K * V) :
  In kv (Dict.update d l) -> In kv l \/ In kv d.
Proof.
  unfold Dict.update. revert d.
  induction l as [| [k0 v0] l IH]; simpl; intros d Hin; [auto |].
  apply IH in Hin as [Hin | Hin]; [auto |].
  assert (Hset : forall d0 : Dict.t K V,
             In kv (Dict.set d0 k0 v0) -> kv = (k0, v0) \/ In kv d0).
  { induction d0 as [| [k1 v1] d0 IHd]; simpl.
    - intuition.
    - destruct (keqb k1 k0) eqn:E; simpl.
      + apply keqb_eq in E; subst k1. intuition.
      + intros [<- | Hd]; [auto |]. apply IHd in Hd. intuition. }
  apply Hset in Hin as [-> | Hin]; auto.
Qed.

Lemma set_fresh {K V : Type} `{EqKey K} (d : Dict.t K V) (k : K) (v : V) :
  ~ In k (Dict.keys d) -> Dict.set d k v = d ++ [(k, v)].
Proof.
  induction d as [| [k0 v0] d IH]; simpl; intros Hn; [reflexivity |].
  destruct (keqb k0 k) eqn:E.
  - apply keqb_eq in E. subst k0. exfalso. auto.
  - rewrite IH by auto. reflexivity.
Qed.

(** A comprehension over distinct keys lists them in the order of the
    iteration. *)
Lemma update_NoDup {K V : Type} `{EqKey K} (l : list (K * V))
    (d : Dict.t K V) :
  NoDup (Dict.keys d ++ map fst l) -> Dict.update d l = d ++ l.
Proof.
  unfold Dict.update. revert d.
  induction l as [| [k0 v0] l IH]; simpl; intros d Hnd.
  - rewrite app_nil_r. reflexivity.
  - pose proof (NoDup_remove_2 _ _ _ Hnd) as Hk.
    rewrite set_fresh.
    + rewrite IH.
      * rewrite <- app_assoc. reflexivity.
      * unfold Dict.keys. rewrite map_app, <- app_assoc. exact Hnd.
    + intros Hin. apply Hk. apply in_or_app. auto.
Qed.

Lemma of_list_NoDup {K V : Type} `{EqKey K} (l : list (K * V)) :
  NoDup (map fst l) -> Dict.of_list l = l.
Proof.
  intros Hnd. change (Dict.of_list l) with (Dict.update Dict.empty l).
  rewrite update_NoDup; [reflexivity | exact Hnd].
Qed.

Section PlotFacts.
Context `{PySet Z}.

Implicit Types (samples : Dict.t string sample_entry) (e : sample_entry).

Lemma chained_items_eq samples :
  chained_items samples
  = inr (flat_map (items_of samples) (Dict.keys samples)).
Proof.
  unfold chained_items.
  rewrite (mapM_pure _ (items_of samples)).
  - simpl. rewrite flat_map_concat_map. reflexivity.
  - intros sample Hin. unfold getitem, items_of.
    apply In_keys_get in Hin as [e ->]. reflexivity.
Qed.

Lemma chained_items_union samples (x : Z) :
  In x (map fst (flat_map (items_of samples) (Dict.keys samples)))
  <-> in_union samples x.
Proof.
  unfold in_union. rewrite in_map_iff. split.
  - intros [[x' c] [Hx Hin]]. simpl in Hx; subst x'.
    apply in_flat_map in Hin as [sample [Hs Hin]].
    unfold items_of in Hin.
    destruct (Dict.get samples sample) as [e |] eqn:Eg; [| contradiction].
    exists sample, e. split; [exact Eg |].
    apply mem_true_keys. apply (in_map fst) in Hin. exact Hin.
  - intros [sample [e [Hg Hm]]].
    apply mem_true_keys in Hm. apply In_keys_get in Hm as [c Hc].
    exists (x, c). split; [reflexivity |].
    apply in_flat_map. exists sample. split.
    + eapply get_Some_In_keys; eassumption.
    + unfold items_of. rewrite Hg. apply get_Some_In. exact Hc.
Qed.

Lemma set_iter_fold (l : list (Z * list Z)) (s : pyset) (x : Z) :
  In x (set_iter (fold_left (fun s item => set_add s (fst item)) l s))
  <-> In x (map fst l) \/ In x (set_iter s).
Proof.
  revert s; induction l as [| a l IH]; simpl; intros s.
  - intuition.
  - rewrite IH, set_iter_add. intuition.
Qed.

(** Lines 13-15: the set holds the union of the x-values. *)
Lemma all_x_union samples :
  exists xs, all_x samples = inr xs /\
             forall x, In x (set_iter xs) <-> in_union samples x.
Proof.
  unfold all_x. rewrite chained_items_eq. simpl.
  eexists. split; [reflexivity |]. intros x.
  rewrite set_iter_fold, set_iter_empty, <- chained_items_union.
  rewrite !in_map_iff. split.
  - intros [[it [Hx Hin]] | []]. exists it. split; [assumption |].
    apply In_sorted. assumption.
  - intros [it [Hx Hin]]. left. exists it. split; [assumption |].
    apply In_sorted. assumption.
Qed.

(** Line 33 for a sample whose count lists are long enough. *)
Lemma series_points_eq e (column : nat) (xs : list Z) :
  (forall x counts, Dict.get (data e) x = Some counts ->
                    (column < length counts)%nat) ->
  series_points e column xs
  = inr (Dict.of_list (map (fun x => (x, point e column x)) xs)).
Proof.
  intros Hshape. unfold series_points.
  rewrite (mapM_pure _ (fun x => (x, point e column x))); [reflexivity |].
  intros x _. unfold Dict.mem, point, getitem, index.
  destruct (Dict.get (data e) x) as [counts |] eqn:Eg; [| reflexivity].
  simpl. specialize (Hshape x counts Eg).
  destruct (nth_error counts column) as [c |] eqn:En.
  - simpl. apply (nth_error_nth _ _ 0%Z) in En. rewrite En. reflexivity.
  - apply nth_error_None in En. lia.
Qed.

Lemma well_shaped_get samples (sample : string) e (x : Z)
    (counts : list Z) :
  well_shaped samples = true ->
  Dict.get samples sample = Some e ->
  Dict.get (data e) x = Some counts ->
  (2 <= length counts)%nat.
Proof.
  unfold well_shaped. intros Hw Hs Hx.
  rewrite forallb_forall in Hw.
  apply get_Some_In in Hs. apply Hw in Hs. cbn [snd] in Hs.
  rewrite forallb_forall in Hs.
  apply get_Some_In in Hx. apply Hs in Hx. cbn [snd] in Hx.
  apply Nat.leb_le in Hx. exact Hx.
Qed.

(** Lines 29-37 for one column type. *)
Lemma series_eq samples (xs : pyset) (column_type : string)
    (column : nat) :
  well_shaped samples = true ->
  (column < 2)%nat ->
  Dict.get columns_to_plot column_type = Some [(column, "Count")] ->
  series samples xs column_type
  = inr (Dict.of_list
           (map (fun sample =>
                   ((sample ++ ".Count")%string,
                    points_of samples xs column sample))
                (Dict.keys samples))).
Proof.
  intros Hw Hcol Hct. unfold series.
  rewrite (mapM_pure _
             (fun sample => [((sample ++ ".Count")%string,
                              points_of samples xs column sample)])).
  - simpl. rewrite <- flat_map_concat_map. unfold ret. f_equal.
  - intros sample Hin. unfold getitem at 1. rewrite Hct. simpl.
    unfold getitem, points_of.
    apply In_keys_get in Hin as [e He]. rewrite He. simpl.
    rewrite series_points_eq.
    + reflexivity.
    + intros x counts Hx.
      pose proof (well_shaped_get samples sample e x counts Hw He Hx).
      lia.
Qed.

Lemma points_of_get samples (xs : pyset) (column : nat) (sample : string)
    e (x : Z) :
  Dict.get samples sample = Some e ->
  In x (set_iter xs) ->
  Dict.get (points_of samples xs column sample) x
  = Some (point e column x).
Proof.
  intros He Hx. unfold points_of. rewrite He.
  apply get_of_list.
  - rewrite map_map. simpl. rewrite map_id. exact Hx.
  - intros v' Hin. apply in_map_iff in Hin as [x' [Heq _]].
    injection Heq as <- <-. reflexivity.
Qed.

Lemma points_of_keys samples (xs : pyset) (column : nat) (sample : string)
    e (x : Z) :
  Dict.get samples sample = Some e ->
  (In x (Dict.keys (points_of samples xs column sample))
   <-> In x (set_iter xs)).
Proof.
  intros He. unfold points_of. rewrite He.
  rewrite keys_of_list, map_map. simpl. rewrite map_id. reflexivity.
Qed.

Lemma series_of_comprehension samples (xs : pyset) (column : nat) :
  (forall x, In x (set_iter xs) <-> in_union samples x) ->
  series_of samples column
    (Dict.of_list
       (map (fun sample =>
               ((sample ++ ".Count")%string,
                points_of samples xs column sample))
            (Dict.keys samples))).
Proof.
  intros Hxs. split.
  - intros key m Hg x.
    apply get_Some_In in Hg.
    apply (In_update_items _ Dict.empty) in Hg as [Hg | []].
    apply in_map_iff in Hg as [sample [Heq Hin]].
    injection Heq as <- <-.
    apply In_keys_get in Hin as [e He].
    rewrite (points_of_keys samples xs column sample e x He).
    apply Hxs.
  - intros sample e He.
    exists (points_of samples xs column sample). split; [| split].
    + apply get_of_list.
      * rewrite map_map. simpl. apply in_map_iff.
        exists sample. split; [reflexivity |].
        eapply get_Some_In_keys; eassumption.
      * intros m' Hin. apply in_map_iff in Hin as [sample' [Heq _]].
        injection Heq as Hkey <-.
        apply append_inj_l in Hkey. subst sample'. reflexivity.
    + intros x Hx. apply points_of_get; [assumption |].
      apply Hxs. assumption.
    + intros x Hx Hm.
      rewrite (points_of_get samples xs column sample e x He)
        by (apply Hxs; assumption).
      unfold point. unfold Dict.mem in Hm.
      destruct (Dict.get (data e) x); [discriminate | reflexivity].
Qed.

(** The x-values of a per-sample mapping come in the order in which the
    set yields them. *)
Lemma points_of_order samples (xs : pyset) (column : nat) (sample : string)
    e :
  Dict.get samples sample = Some e ->
  Dict.keys (points_of samples xs column sample) = set_iter xs.
Proof.
  intros He. unfold points_of. rewrite He.
  rewrite of_list_NoDup.
  - unfold Dict.keys. rewrite map_map. simpl. apply map_id.
  - rewrite map_map. simpl. rewrite map_id. apply set_iter_NoDup.
Qed.
End PlotFacts.

(** The table of eight slots is a set. *)

Lemma In_slot_place (a x : Z) (l : list Z) :
  In x (SlotSet.place a l) <-> x = a \/ In x l.
Proof.
  induction l as [| b l IH]; simpl.
  - intuition.
  - destruct (SlotSet.slot a <? SlotSet.slot b)%Z; simpl;
      [| rewrite IH]; intuition.
Qed.

Lemma In_slot_add (a x : Z) (l : list Z) :
  In x (SlotSet.add l a) <-> x = a \/ In x l.
Proof.
  unfold SlotSet.add. destruct (existsb (Z.eqb a) l) eqn:E.
  - apply existsb_exists in E as [b [Hin Hb]].
    apply Z.eqb_eq in Hb; subst b. split; [auto |].
    intros [-> | Hx]; assumption.
  - apply In_slot_place.
Qed.

Lemma NoDup_slot_place (a : Z) (l : list Z) :
  ~ In a l -> NoDup l -> NoDup (SlotSet.place a l).
Proof.
  induction l as [| b l IH]; simpl; intros Hn Hnd.
  - constructor; [tauto | constructor].
  - destruct (SlotSet.slot a <? SlotSet.slot b)%Z.
    + constructor; [simpl; tauto | assumption].
    + inversion Hnd as [| ? ? Hb Hl]; subst. constructor.
      * rewrite In_slot_place. intros [-> | Hin]; tauto.
      * apply IH; tauto.
Qed.

Lemma NoDup_slot_add (a : Z) (l : list Z) :
  NoDup l -> NoDup (SlotSet.add l a).
Proof.
  intros Hnd. unfold SlotSet.add.
  destruct (existsb (Z.eqb a) l) eqn:E; [assumption |].
  apply NoDup_slot_place; [| assumption].
  intros Hin. assert (Ht : existsb (Z.eqb a) l = true).
  { apply existsb_exists. exists a. split; [assumption | apply Z.eqb_refl]. }
  congruence.
Qed.

Lemma NoDup_slot_fold (s acc : list Z) :
  NoDup acc -> NoDup (fold_left SlotSet.add s acc).
Proof.
  revert acc; induction s as [| a s IH]; simpl; intros acc Hnd;
    [assumption |].
  apply IH. apply NoDup_slot_add. assumption.
Qed.

#[export] Instance slot_PySet : PySet Z.
Proof.
  refine {| pyset := list Z;
            set_empty := [];
            set_add := fun s a => s ++ [a];
            set_iter := SlotSet.iter |}.
  - reflexivity.
  - intros s a x. unfold SlotSet.iter. rewrite fold_left_app. simpl.
    apply In_slot_add.
  - intros s. apply NoDup_slot_fold. constructor.
Defined.

(** * The claims about [plot_idhist.py] *)

(** C2.  For samples whose count lists have their two entries, [plot_data]
    is the list of the Reads series and the Bases series.  In each of them
    the x-keys of every per-sample mapping are the union of the x-values of
    all samples, a sample's mapping is under its name followed by
    [".Count"], it has the sample's count of that column at every x of the
    union, and 0 at every x of the union that the sample does not have. *)
Theorem plot_data_x_union `{PySet Z} (samples : Dict.t string sample_entry) :
  well_shaped samples = true ->
  exists reads bases,
    plot_data samples = inr [reads; bases] /\
    series_of samples 0 reads /\
    series_of samples 1 bases.
Proof.
  intros Hw. unfold plot_data.
  destruct (all_x_union samples) as [xs [Hxs Hunion]].
  rewrite Hxs. simpl.
  rewrite (series_eq samples xs "Reads" 0 Hw) by (auto; reflexivity).
  simpl.
  rewrite (series_eq samples xs "Bases" 1 Hw) by (auto; reflexivity).
  simpl. do 2 eexists. split; [reflexivity |].
  split; apply series_of_comprehension; assumption.
Qed.

(** The theorem of C2 at two samples with the x-values 1, 2 and 2, 3. *)
Lemma plot_data_x_union_example :
  well_shaped two_histograms = true /\
  exists reads bases,
    plot_data two_histograms = inr [reads; bases] /\
    series_of two_histograms 0 reads /\
    series_of two_histograms 1 bases.
Proof.
  split; [reflexivity |].
  apply (plot_data_x_union two_histograms). reflexivity.
Defined.

Example plot_data_two_histograms :
  plot_data two_histograms
  = inr [ [ ("s.Count", [ (1, 10); (2, 20); (3, 0) ]%Z);
            ("t.Count", [ (1, 0); (2, 5); (3, 7) ]%Z) ];
          [ ("s.Count", [ (1, 1000); (2, 2000); (3, 0) ]%Z);
            ("t.Count", [ (1, 0); (2, 500); (3, 700) ]%Z) ] ].
Proof. reflexivity. Qed.

(** C3 fails on the code.  The x-values are sorted and then put into a set,
    and each per-sample mapping lists them as the set yields them.  With the
    x-values 1 and 8 in a table of eight slots, 8 comes before 1. *)
Theorem plot_data_order_is_the_sets :
  (its <- chained_items one_and_eight ;; ret (map fst (sorted its)))
  = inr [1; 8]%Z /\
  plot_data one_and_eight
  = inr [ [ ("s.Count", [ (8, 20); (1, 10) ]%Z) ];
          [ ("s.Count", [ (8, 2000); (1, 1000) ]%Z) ] ].
Proof. split; reflexivity. Qed.

(** * Further properties *)

(** ** Loops *)



Lemma mapM_returns {A B : Type} (f : A -> result B) (l : list A) :
  (forall a, In a l -> exists b, f a = inr b) ->
  exists bs, mapM f l = inr bs.
Proof.
  induction l as [| a l IH]; simpl; intros Hf.
  - eexists; reflexivity.
  - destruct (Hf a (or_introl eq_refl)) as [b Hb]. rewrite Hb. simpl.
    destruct IH as [bs Hbs]; [auto |]. rewrite Hbs. simpl.
    eexists; reflexivity.
Qed.

Lemma mapM_inr_In {A B : Type} (f : A -> result B) (l : list A)
    (bs : list B) (a : A) :
  mapM f l = inr bs -> In a l -> exists b, In b bs /\ f a = inr b.
Proof.
  intros Hm. apply mapM_inr in Hm.
  induction Hm as [| a0 b0 l0 bs0 H0 _ IH]; simpl; [contradiction |].
  intros [<- | Hin]; [eauto |].
  destruct (IH Hin) as [b [Hb Hf]]. eauto.
Qed.

Lemma mapM_inr_map {A B C : Type} (f : A -> result B) (g : A -> C)
    (h : B -> C) (l : list A) (bs : list B) :
  (forall a b, f a = inr b -> h b = g a) ->
  mapM f l = inr bs -> map h bs = map g l.
Proof.
  intros Hgh Hm. apply mapM_inr in Hm.
  induction Hm as [| a0 b0 l0 bs0 H0 _ IH]; simpl; [reflexivity |].
  rewrite IH, (Hgh a0 b0 H0). reflexivity.
Qed.

(** ** [parse_qcml_by] and [get_read_type]: what they need and what they
    raise *)

Section ReadableFacts.
Context `{PyFloat}.






End ReadableFacts.

(** ** [parse_qcml_by]: what it records *)



Section RecordFacts.
Context `{PyFloat}.

(** X3.  Of the elements recorded under one name the last one counts: the
    returned row has its value, as a float where [float] accepts it and as
    the raw string otherwise, and the metadata table has its description and
    accession. *)
Theorem last_recorded_element_wins (q q' : qcml_t) (root : Element)
    (tagname : string) (params : row) (es1 es2 : list Element)
    (qp : Element) (v n : string) :
  findall root tagname = es1 ++ qp :: es2 ->
  Dict.get (attrib qp) "value" = Some v ->
  startswith v "n/a" = false ->
  Dict.get (attrib qp) "name" = Some n ->
  (forall qp' v' n',
      In qp' es2 ->
      Dict.get (attrib qp') "value" = Some v' ->
      Dict.get (attrib qp') "name" = Some n' ->
      re_sub_percentage n' = re_sub_percentage n ->
      startswith v' "n/a" = true) ->
  parse_qcml_by q root tagname = inr (params, q') ->
  Dict.get params (re_sub_percentage n)
  = Some (match float_of_string v with
          | Some x => VFloat x
          | None => VStr v
          end) /\
  Dict.get q' (re_sub_percentage n) = Some (metadata_of qp).
Proof.
  intros Hes Hv Hna Hn Hlater Hp. unfold parse_qcml_by in Hp.
  rewrite Hes, foldM_app in Hp.
  apply bind_inr in Hp as [st1 [_ Hp]]. simpl in Hp.
  rewrite (parse_qp_record st1 qp v n Hv Hna Hn) in Hp. simpl in Hp.
  apply (parse_elements_untouched _ _ _ (re_sub_percentage n)) in Hp;
    [| exact Hlater].
  simpl in Hp. destruct Hp as [-> ->].
  rewrite !get_set_eq. split; reflexivity.
Qed.

Lemma parse_elements_complete (es : list Element) (st st' : row * qcml_t) :
  entries_complete st -> foldM parse_qp es st = inr st' ->
  entries_complete st'.
Proof.
  apply (foldM_invariant parse_qp entries_complete).
  clear st st'. intros st qp st' Hc Hp.
  apply parse_qp_inr in Hp as [v [_ [[_ ->] | [_ [n [_ ->]]]]]];
    [assumption |].
  intros k. simpl. rewrite keys_set.
  destruct (String.eqb_spec (re_sub_percentage n) k) as [<- | Hne].
  - intros _. rewrite get_set_eq. unfold metadata_of. eauto.
  - intros [Hk | Hk]; [congruence |].
    rewrite get_set_neq by assumption. apply Hc. assumption.
Qed.

(** X4.  After a call that returns, every name of the returned row has a
    metadata entry with exactly the keys ['description'] and ['accession'],
    in this order, an attribute that the element lacks being the empty
    string. *)
Theorem recorded_names_have_metadata (q q' : qcml_t) (root : Element)
    (tagname : string) (params : row) (k : string) :
  parse_qcml_by q root tagname = inr (params, q') ->
  In k (Dict.keys params) ->
  exists d a,
    Dict.get q' k = Some [("description", d); ("accession", a)].
Proof.
  unfold parse_qcml_by. intros Hp Hk.
  apply (parse_elements_complete _ (Dict.empty, q) (params, q')) in Hp.
  - apply Hp. exact Hk.
  - intros k' [].
Qed.

(** X5.  A call never removes an entry of the metadata table, and it leaves
    the entry of every name that is not in the returned row as it was: what
    earlier files recorded for other parameters stays. *)
Theorem metadata_of_other_names_kept (q q' : qcml_t) (root : Element)
    (tagname : string) (params : row) :
  parse_qcml_by q root tagname = inr (params, q') ->
  (forall k, In k (Dict.keys q) -> In k (Dict.keys q')) /\
  (forall k, ~ In k (Dict.keys params) -> Dict.get q' k = Dict.get q k).
Proof.
  unfold parse_qcml_by. intros Hp. split.
  - intros k Hk.
    destruct (parse_elements_keys _ _ _ k Hp) as [_ Hgrow]. auto.
  - apply (foldM_invariant parse_qp (others_kept q)
             (findall root tagname) (Dict.empty, q) (params, q'));
      [| intros k _; reflexivity | exact Hp].
    intros st qp st' Hkept Hstep.
    apply parse_qp_inr in Hstep as [v [_ [[_ ->] | [_ [n [_ ->]]]]]];
      [assumption |].
    intros k Hk. simpl in Hk. rewrite keys_set in Hk. simpl.
    assert (Hne : re_sub_percentage n <> k).
    { intros Heq. apply Hk. auto. }
    rewrite get_set_neq by exact Hne.
    apply Hkept. intros Hin. apply Hk. auto.
Qed.

End RecordFacts.

(** ** [get_read_type]: the order of the source files *)

Lemma existsb_same_elements {A : Type} (f : A -> bool) (l l' : list A) :
  (forall a, In a l <-> In a l') -> existsb f l = existsb f l'.
Proof.
  intros Hsame. apply eq_true_iff_eq. rewrite !existsb_exists.
  split; intros [a [Hin Hf]]; exists a; split; try assumption;
    apply Hsame; assumption.
Qed.

(** X7.  The read type depends only on which source files there are, not
    on their order in the document or on how often one is listed. *)
Theorem read_type_of_same_files (l l' : list string) :
  (forall sf, In sf l <-> In sf l') -> read_type_of l = read_type_of l'.
Proof.
  intros Hsame. unfold read_type_of. rewrite !check_reads_flags.
  rewrite (existsb_same_elements (contains "R1") l l' Hsame).
  rewrite (existsb_same_elements _ l l' Hsame). reflexivity.
Qed.

(** ** [make_description] *)

Lemma mapM_raises {A B : Type} (f : A -> result B) (Q : exn -> Prop)
    (l : list A) (e : exn) :
  (forall a e, f a = inl e -> Q e) -> mapM f l = inl e -> Q e.
Proof.
  intros Hf. induction l as [| a l IH]; simpl; intros Hm; [discriminate |].
  destruct (f a) as [e1 | b] eqn:E1; simpl in Hm.
  - injection Hm as <-. eauto.
  - destruct (mapM f l) as [e2 | bs]; simpl in Hm; [| discriminate].
    injection Hm as <-. auto.
Qed.

Lemma description_item_returns_iff
    (qcml : Dict.t string (Dict.t string string)) (key : string) :
  (exists d, description_item qcml key = inr d) <-> described qcml key.
Proof.
  unfold description_item, described, getitem. split.
  - intros [s Hs].
    destruct (Dict.get qcml key) as [entry |] eqn:Ee; [| discriminate].
    simpl in Hs.
    destruct (Dict.get entry "description") as [d |] eqn:Ed;
      [| discriminate].
    exists entry, d. auto.
  - intros [entry [d [-> Hd]]]. simpl. rewrite Hd. eauto.
Qed.

Lemma description_item_raises
    (qcml : Dict.t string (Dict.t string string)) (key : string) (e : exn) :
  description_item qcml key = inl e -> exists k, e = KeyError k.
Proof.
  unfold description_item, getitem.
  destruct (Dict.get qcml key) as [entry |]; simpl.
  - destruct (Dict.get entry "description"); [discriminate |].
    intros E. injection E as <-. eauto.
  - intros E. injection E as <-. eauto.
Qed.

Lemma description_li_returns_iff
    (qcml : Dict.t string (Dict.t string string)) (key : string) :
  (exists li, (d <- description_item qcml key ;;
               ret ("<li>" ++ d ++ "</li>")%string) = inr li)
  <-> described qcml key.
Proof.
  rewrite <- description_item_returns_iff. split.
  - intros [li Hl]. apply bind_inr in Hl as [d [Hd _]]. eauto.
  - intros [d ->]. simpl. eauto.
Qed.

(** X8.  [make_description] returns exactly when every key has a metadata
    entry with a ['description']; for a key without entry, or an entry
    without description, it raises [KeyError].  For one key the result is
    that key's description. *)
Theorem make_description_returns_iff
    (qcml : Dict.t string (Dict.t string string)) (keynames : list string) :
  ((exists s, make_description qcml keynames = inr s) <->
   forall key, In key keynames -> described qcml key) /\
  (forall e, make_description qcml keynames = inl e ->
             exists k, e = KeyError k) /\
  (forall key entry d,
      keynames = [key] -> Dict.get qcml key = Some entry ->
      Dict.get entry "description" = Some d ->
      make_description qcml keynames = inr d).
Proof.
  assert (Hlist : forall l,
             (exists lis,
                 mapM (fun key =>
                         d <- description_item qcml key ;;
                         ret ("<li>" ++ d ++ "</li>")%string) l = inr lis)
             <-> forall key, In key l -> described qcml key).
  { intros l. split.
    - intros [lis Hm] key Hin.
      destruct (mapM_inr_In _ _ _ key Hm Hin) as [s [_ Hs]].
      apply description_li_returns_iff. eauto.
    - intros Hall. apply mapM_returns. intros key Hin.
      apply description_li_returns_iff. auto. }
  assert (Hraise : forall l e,
             mapM (fun key =>
                     d <- description_item qcml key ;;
                     ret ("<li>" ++ d ++ "</li>")%string) l = inl e ->
             exists k, e = KeyError k).
  { intros l e.
    apply (mapM_raises _ (fun e => exists k, e = KeyError k)).
    intros key e' E.
    destruct (description_item qcml key) as [e1 | d] eqn:E1;
      simpl in E; [| discriminate].
    injection E as <-. eapply description_item_raises; eassumption. }
  assert (Hmany : forall l,
             ((exists s,
                  (lis <- mapM (fun key =>
                                  d <- description_item qcml key ;;
                                  ret ("<li>" ++ d ++ "</li>")%string) l ;;
                   ret ("<ul>" ++ String.concat "" lis ++ "</ul>")%string)
                  = inr s)
              <-> forall key, In key l -> described qcml key) /\
             (forall e,
                 (lis <- mapM (fun key =>
                                 d <- description_item qcml key ;;
                                 ret ("<li>" ++ d ++ "</li>")%string) l ;;
                  ret ("<ul>" ++ String.concat "" lis ++ "</ul>")%string)
                 = inl e -> exists k, e = KeyError k)).
  { intros l. split.
    - rewrite <- Hlist. split.
      + intros [s Hs]. apply bind_inr in Hs as [lis [Hl _]]. eauto.
      + intros [lis ->]. simpl. eauto.
    - intros e He.
      destruct (mapM _ l) as [e1 | lis] eqn:E1; simpl in He;
        [| discriminate].
      injection He as <-. eapply Hraise; eassumption. }
  split; [| split].
  - destruct keynames as [| key [| key2 rest]].
    + apply Hmany.
    + unfold make_description. rewrite description_item_returns_iff. split.
      * intros Hd key' [<- | []]. assumption.
      * intros Hall. apply Hall. simpl. auto.
    + apply Hmany.
  - intros e. destruct keynames as [| key [| key2 rest]].
    + apply Hmany.
    + apply description_item_raises.
    + apply Hmany.
  - intros key entry d -> He Hd.
    unfold make_description, description_item, getitem.
    rewrite He. simpl. rewrite Hd. reflexivity.
Qed.

Lemma make_description_returns
    (qcml : Dict.t string (Dict.t string string)) (keynames : list string) :
  (forall key, In key keynames -> described qcml key) ->
  exists s, make_description qcml keynames = inr s.
Proof.
  intros Hall.
  assert (Hmany : exists s,
             (lis <- mapM (fun key =>
                             d <- description_item qcml key ;;
                             ret ("<li>" ++ d ++ "</li>")%string)
                          keynames ;;
              ret ("<ul>" ++ String.concat "" lis ++ "</ul>")%string)
             = inr s).
  { destruct (mapM_returns
                (fun key =>
                   d <- description_item qcml key ;;
                   ret ("<li>" ++ d ++ "</li>")%string) keynames)
      as [lis ->]; [| simpl; eauto].
    intros key Hin. apply description_li_returns_iff. auto. }
  destruct keynames as [| key [| key2 rest]]; try exact Hmany.
  apply description_item_returns_iff. apply Hall. simpl. auto.
Qed.

(** X9.  [make_description] never fails on names that one call of
    [parse_qcml_by] recorded: for any list of names of the returned row it
    returns. *)
Theorem make_description_of_recorded_names `{PyFloat} (q q' : qcml_t)
    (root : Element) (tagname : string) (params : row)
    (keynames : list string) :
  parse_qcml_by q root tagname = inr (params, q') ->
  (forall key, In key keynames -> In key (Dict.keys params)) ->
  exists s, make_description q' keynames = inr s.
Proof.
  intros Hp Hkeys. apply make_description_returns.
  intros key Hin. unfold parse_qcml_by in Hp.
  apply (parse_elements_complete _ (Dict.empty, q) (params, q')) in Hp;
    [| intros k' []].
  destruct (Hp key (Hkeys key Hin)) as [d [a Hg]].
  exists [("description", d); ("accession", a)], d. split; [exact Hg |].
  reflexivity.
Qed.

(** ** [dict_ordered_subset] *)

Lemma subset_fold_get {V : Type} (d od : Dict.t string V) (ks : list string)
    (k : string) :
  Dict.get
    (fold_left (fun od k =>
                  match Dict.get d k with
                  | Some v => Dict.set od k v
                  | None => od
                  end) ks od) k
  = if existsb (String.eqb k) ks
    then match Dict.get d k with
         | Some v => Some v
         | None => Dict.get od k
         end
    else Dict.get od k.
Proof.
  revert od; induction ks as [| k0 ks IH]; simpl; intros od; [reflexivity |].
  rewrite IH. destruct (String.eqb_spec k k0) as [<- | Hne]; simpl.
  - destruct (Dict.get d k) as [v |] eqn:Ed.
    + rewrite get_set_eq. destruct (existsb (String.eqb k) ks); reflexivity.
    + destruct (existsb (String.eqb k) ks); reflexivity.
  - destruct (Dict.get d k0) as [v0 |]; [| reflexivity].
    rewrite get_set_neq by congruence. reflexivity.
Qed.

Lemma subset_fold_keys {V : Type} (d od : Dict.t string V)
    (ks : list string) :
  NoDup (Dict.keys od ++ ks) ->
  Dict.keys
    (fold_left (fun od k =>
                  match Dict.get d k with
                  | Some v => Dict.set od k v
                  | None => od
                  end) ks od)
  = Dict.keys od ++ filter (Dict.mem d) ks.
Proof.
  revert od; induction ks as [| k0 ks IH]; simpl; intros od Hnd.
  - rewrite app_nil_r. reflexivity.
  - pose proof (NoDup_remove_1 _ _ _ Hnd) as Hrest.
    pose proof (NoDup_remove_2 _ _ _ Hnd) as Hk0.
    unfold Dict.mem at 1. destruct (Dict.get d k0) as [v0 |].
    + rewrite IH.
      * rewrite set_fresh by (intros Hin; apply Hk0; apply in_or_app; auto).
        unfold Dict.keys. rewrite map_app, <- app_assoc. reflexivity.
      * rewrite set_fresh by (intros Hin; apply Hk0; apply in_or_app; auto).
        unfold Dict.keys. rewrite map_app, <- app_assoc. exact Hnd.
    + apply IH. exact Hrest.
Qed.

(** X10.  [dict_ordered_subset(d, ks)] has a key exactly when the key is in
    [ks] and in [d], with the value it has in [d]; a key of [ks] that [d]
    does not have is passed over without an error. *)
Theorem dict_ordered_subset_get {V : Type} (d : Dict.t string V)
    (ks : list string) (k : string) :
  Dict.get (dict_ordered_subset d ks) k
  = if existsb (String.eqb k) ks then Dict.get d k else None.
Proof.
  unfold dict_ordered_subset. rewrite subset_fold_get. simpl.
  destruct (existsb (String.eqb k) ks); [| reflexivity].
  destruct (Dict.get d k); reflexivity.
Qed.

(** X11.  The keys of [dict_ordered_subset(d, ks)] come in the order of
    [ks], whatever their order in [d]. *)
Theorem dict_ordered_subset_order {V : Type} (d : Dict.t string V)
    (ks : list string) :
  NoDup ks ->
  Dict.keys (dict_ordered_subset d ks) = filter (Dict.mem d) ks.
Proof.
  intros Hnd. unfold dict_ordered_subset.
  rewrite subset_fold_keys; [reflexivity | exact Hnd].
Qed.

(** The order of [ks] wins over the order of [d]. *)
Lemma dict_ordered_subset_order_example :
  NoDup ["b"; "x"; "a"] /\
  Dict.keys (dict_ordered_subset [("a", 1%Z); ("b", 2%Z); ("c", 3%Z)]
                                 ["b"; "x"; "a"])
  = filter (Dict.mem [("a", 1%Z); ("b", 2%Z); ("c", 3%Z)]) ["b"; "x"; "a"].
Proof.
  assert (Hnd : NoDup ["b"; "x"; "a"]).
  { repeat constructor; simpl; intuition discriminate. }
  split; [exact Hnd |].
  apply (dict_ordered_subset_order [("a", 1%Z); ("b", 2%Z); ("c", 3%Z)]).
  exact Hnd.
Defined.

(** ** [MultiqcModule.__init__]: when it returns *)

Lemma In_set_items {K V : Type} `{EqKey K} (d : Dict.t K V) (k : K) (v : V)
    (kv : K * V) :
  In kv (Dict.set d k v) -> kv = (k, v) \/ In kv d.
Proof.
  induction d as [| [k1 v1] d IH]; simpl.
  - intuition.
  - destruct (keqb k1 k) eqn:E; simpl.
    + apply keqb_eq in E; subst k1. intuition.
    + intros [<- | Hd]; [auto |]. apply IH in Hd. intuition.
Qed.

Lemma NoDup_keys_remove {K V : Type} `{EqKey K} (d : Dict.t K V) (k : K) :
  NoDup (Dict.keys d) -> NoDup (Dict.keys (Dict.remove d k)).
Proof.
  induction d as [| [k1 v1] d IH]; simpl; intros Hnd; [constructor |].
  inversion Hnd as [| ? ? Hk1 Hd]; subst.
  destruct (keqb k1 k); simpl; [auto |].
  constructor; [| auto].
  change (~ In k1 (Dict.keys (Dict.remove d k))).
  rewrite keys_remove. tauto.
Qed.

Lemma In_NoDup_get {K V : Type} `{EqKey K} (d : Dict.t K V) (k : K) (v : V) :
  NoDup (Dict.keys d) -> In (k, v) d -> Dict.get d k = Some v.
Proof.
  induction d as [| [k1 v1] d IH]; simpl; intros Hnd Hin; [contradiction |].
  inversion Hnd as [| ? ? Hk1 Hd]; subst.
  destruct Hin as [Heq | Hin].
  - injection Heq as -> ->. rewrite keqb_refl. reflexivity.
  - destruct (keqb k1 k) eqn:E.
    + apply keqb_eq in E; subst k1. exfalso. apply Hk1.
      apply (in_map fst) in Hin. exact Hin.
    + auto.
Qed.

Section ReturnFacts.
Context `{Host}.

Lemma parse_elements_qcml_ok (es : list Element) (st st' : row * qcml_t) :
  qcml_ok (snd st) -> foldM parse_qp es st = inr st' -> qcml_ok (snd st').
Proof.
  apply (foldM_invariant parse_qp (fun st => qcml_ok (snd st))).
  clear st st'. intros st qp st' [Hnd Hdesc] Hp.
  apply parse_qp_inr in Hp as [v [_ [[_ ->] | [_ [n [_ ->]]]]]];
    [split; assumption |].
  simpl. split; [apply keys_NoDup_set; assumption |].
  intros k entry Hin. apply In_set_items in Hin as [Heq | Hin].
  - injection Heq as _ ->. unfold metadata_of. simpl. eauto.
  - eauto.
Qed.

Lemma parse_file_state_ok (st st' : module_state) (lf : log_file) :
  state_ok st -> parse_file st lf = inr st' -> state_ok st'.
Proof.
  intros [Hq [Hnd Hcov]] Hp.
  pose proof (parse_file_rows_covered st st' lf Hcov Hp) as Hcov'.
  unfold parse_file, parse_qcml_by in Hp.
  apply bind_inr in Hp as [parsed [Hparse Hp]].
  apply bind_inr in Hp as [rt [_ Hp]]. injection Hp as <-.
  split; [| split; [| exact Hcov']]; simpl.
  - apply (parse_elements_qcml_ok _ (Dict.empty, qcml st) parsed Hq Hparse).
  - apply keys_NoDup_set. assumption.
Qed.

Lemma parse_files_state_ok (files : list log_file) (st : module_state) :
  parse_files files = inr st -> state_ok st.
Proof.
  apply (foldM_invariant parse_file state_ok).
  - intros s a s'. apply parse_file_state_ok.
  - split; [split |]; [constructor | intros k e [] | split].
    + constructor.
    + intros name kv k Hg. discriminate Hg.
Qed.

Lemma derive_qcml_ok (q q' : qcml_t) :
  qcml_ok q -> derive_qcml q = inr q' -> qcml_ok q'.
Proof.
  unfold derive_qcml, popitem. intros [Hnd Hdesc] Hd.
  destruct (Dict.get q "bases sequenced (MB)"); [| discriminate].
  simpl in Hd. injection Hd as <-. split.
  - do 2 apply keys_NoDup_set. apply NoDup_keys_remove. assumption.
  - intros k entry Hin.
    apply In_set_items in Hin as [Heq | Hin];
      [injection Heq as _ ->; simpl; eauto |].
    apply In_set_items in Hin as [Heq | Hin];
      [injection Heq as _ ->; simpl; eauto |].
    apply filter_In in Hin as [Hin _]. eauto.
Qed.

Lemma base_headers_returns (q : qcml_t) :
  qcml_ok q -> exists hs, base_headers q = inr hs.
Proof.
  intros [_ Hdesc]. unfold base_headers, Dict.items.
  destruct (mapM_returns
              (fun item : string * Dict.t string string =>
                 d <- getitem show_string (snd item) "description" ;;
                 ret (fst item,
                      [ ("namespace", HStr "ReadQC");
                        ("title", HStr (fst item));
                        ("description", HStr d) ])) q) as [hs Hhs].
  - intros [k entry] Hin. destruct (Hdesc k entry Hin) as [d Hd].
    unfold getitem. simpl. rewrite Hd. simpl. eauto.
  - rewrite Hhs. simpl. eauto.
Qed.

Lemma update_header_returns_iff (hs : headers_t) (key : string)
    (fields : list (string * hvalue)) :
  (exists hs', update_header hs key fields = inr hs')
  <-> In key (Dict.keys hs).
Proof.
  unfold update_header, getitem. split.
  - intros [hs' Hu].
    destruct (Dict.get hs key) as [h |] eqn:Eh; [| discriminate].
    eapply get_Some_In_keys; eassumption.
  - intros Hin. apply In_keys_get in Hin as [h ->]. simpl. eauto.
Qed.

(** Lines 145-163 return exactly when the table has the eight columns. *)
Lemma make_headers_returns_iff (q : qcml_t) :
  qcml_ok q ->
  ((exists hs, make_headers q = inr hs) <->
   forall k, In k ("cluster count" :: "bases sequenced" :: required_columns) ->
             In k (Dict.keys q)).
Proof.
  intros Hok. split.
  - intros [hs Hm] k Hk. unfold make_headers in Hm.
    apply bind_inr in Hm as [h0 [Hbase Hm]].
    assert (Hkeys : forall k, In k (Dict.keys h0) <-> In k (Dict.keys q)).
    { intros k0. apply (base_headers_keys _ _ k0 Hbase). }
    clear Hbase.
    repeat match type of Hm with
           | bind (update_header ?h ?key ?fs) _ = inr _ =>
               let hi := fresh "h" in
               let Hi := fresh "Hu" in
               let Hin := fresh "Hin" in
               apply bind_inr in Hm as [hi [Hi Hm]];
               assert (Hin : In key (Dict.keys q))
                 by (apply Hkeys; apply (update_header_returns_iff h key fs);
                     eauto);
               assert (forall k, In k (Dict.keys hi) <-> In k (Dict.keys q))
                 by (intros k0; rewrite <- Hkeys;
                     apply (update_header_keys _ _ _ _ k0 Hi));
               clear Hkeys Hi;
               match goal with
               | Hnew : forall k, In k (Dict.keys hi) <-> _ |- _ =>
                   rename Hnew into Hkeys
               end
           end.
    assert (Hlast : In "no base call %" (Dict.keys q)).
    { apply Hkeys.
      match type of Hm with
      | update_header ?h ?key ?fs = _ =>
          apply (update_header_returns_iff h key fs)
      end. eauto. }
    unfold required_columns in Hk. simpl in Hk.
    repeat destruct Hk as [<- | Hk]; try assumption. contradiction.
  - intros Hall. unfold make_headers.
    destruct (base_headers_returns q Hok) as [h0 Hbase]. rewrite Hbase.
    simpl.
    assert (Hkeys : forall k, In k (Dict.keys h0) <-> In k (Dict.keys q)).
    { intros k0. apply (base_headers_keys _ _ k0 Hbase). }
    clear Hbase.
    repeat match goal with
           | |- exists hs, bind (update_header ?h ?key ?fs) _ = inr hs =>
               let hi := fresh "h" in
               let Hi := fresh "Hu" in
               destruct (proj2 (update_header_returns_iff h key fs))
                 as [hi Hi];
               [ apply Hkeys; apply Hall; unfold required_columns; simpl;
                 tauto
               | rewrite Hi; simpl;
                 assert (forall k,
                            In k (Dict.keys hi) <-> In k (Dict.keys q))
                   by (intros k0; rewrite <- Hkeys;
                       apply (update_header_keys _ _ _ _ k0 Hi));
                 clear Hkeys Hi;
                 match goal with
                 | Hnew : forall k, In k (Dict.keys hi) <-> _ |- _ =>
                     rename Hnew into Hkeys
                 end ]
           end.
    apply update_header_returns_iff. apply Hkeys. apply Hall.
    unfold required_columns. simpl. tauto.
Qed.


End ReturnFacts.

Lemma map_fst_filter {A B : Type} (p : A -> bool) (l : list (A * B)) :
  map fst (filter (fun ab => p (fst ab)) l) = filter p (map fst l).
Proof.
  induction l as [| [a b] l IH]; simpl; [reflexivity |].
  destruct (p a); simpl; [f_equal |]; assumption.
Qed.

Section ReturnClaims.
Context `{Host}.


Lemma keys_set_first {V : Type} (d : Dict.t string V) (k : string) (v : V) :
  Dict.keys (Dict.set d k v)
  = if existsb (String.eqb k) (Dict.keys d) then Dict.keys d
    else Dict.keys d ++ [k].
Proof.
  induction d as [| [k1 v1] d IH]; simpl; [reflexivity |].
  rewrite (String.eqb_sym k k1).
  destruct (String.eqb k1 k) eqn:E; simpl; [reflexivity |].
  rewrite IH. destruct (existsb (String.eqb k) (Dict.keys d)); reflexivity.
Qed.

Lemma parse_files_names (files : list log_file) (st0 st : module_state) :
  foldM parse_file files st0 = inr st ->
  Dict.keys (qcdata st)
  = fold_left (fun acc name =>
                 if existsb (String.eqb name) acc then acc
                 else acc ++ [name])
              (map (fun lf => clean_s_name (s_name lf) (root lf)) files)
              (Dict.keys (qcdata st0)).
Proof.
  revert st0; induction files as [| lf files IH]; simpl; intros st0 Hf.
  - injection Hf as <-. reflexivity.
  - apply bind_inr in Hf as [st1 [H1 Hf]]. rewrite (IH st1 Hf).
    f_equal. unfold parse_file in H1.
    apply bind_inr in H1 as [parsed [_ H1]].
    apply bind_inr in H1 as [rt [_ H1]]. injection H1 as <-. simpl.
    apply keys_set_first.
Qed.

(** X13.  The rows that [__init__] hands on are those of the samples that
    are not excluded, one row for a sample name, in the order in which the
    names first came up among the files. *)
Theorem report_rows_are_the_remaining_samples (files : list log_file)
    (out : report) :
  MultiqcModule_init files = inr out ->
  Dict.keys (report_qcdata out)
  = filter (fun name => negb (sample_ignored name))
           (first_occurrences
              (map (fun lf => clean_s_name (s_name lf) (root lf)) files)).
Proof.
  intros Hi.
  destruct (parse_files files) as [e | st] eqn:Hp.
  { unfold MultiqcModule_init in Hi. rewrite Hp in Hi. discriminate. }
  destruct (init_inr files st out Hp Hi) as [q [_ [Hrows _]]].
  unfold derive_rows, Dict.items in Hrows.
  apply (mapM_inr_map _ fst fst) in Hrows.
  - unfold Dict.keys at 1. rewrite Hrows. unfold ignore_samples.
    rewrite (map_fst_filter (fun name => negb (sample_ignored name))).
    f_equal. apply (parse_files_names files initial_state st Hp).
  - intros item item' Hitem. apply bind_inr in Hitem as [kv' [_ Hitem]].
    injection Hitem as <-. reflexivity.
Qed.

End ReturnClaims.

(** ** [MultiqcModule.__init__]: the headers *)

Section HeaderFacts.
Context `{Host}.

Lemma base_headers_ok (q : qcml_t) (hs : headers_t) :
  qcml_ok q -> base_headers q = inr hs -> headers_ok q hs.
Proof.
  intros [Hnd _] Hb k h Hg. unfold base_headers, Dict.items in Hb.
  apply bind_inr in Hb as [l [Hl Hb]]. injection Hb as <-.
  apply get_Some_In in Hg.
  apply (In_update_items l Dict.empty) in Hg as [Hg | []].
  apply mapM_inr in Hl.
  induction Hl as [| [k0 entry] item q0 l0 Hitem _ IH].
  - contradiction.
  - apply bind_inr in Hitem as [d [Hd Hitem]]. simpl in Hd, Hitem.
    injection Hitem as <-.
    inversion Hnd as [| ? ? Hk0 Hnd0]; subst.
    destruct Hg as [Heq | Hg].
    + injection Heq as <- <-. simpl. rewrite String.eqb_refl.
      split; [reflexivity |]. split; [reflexivity |].
      exists entry, d. split; [reflexivity |]. split; [| reflexivity].
      unfold getitem in Hd.
      destruct (Dict.get entry "description"); [| discriminate].
      injection Hd as ->. reflexivity.
    + destruct (IH Hnd0 Hg) as [Hns [Ht [entry' [d' [He Hrest]]]]].
      split; [assumption |]. split; [assumption |].
      exists entry', d'. split; [| assumption].
      simpl. destruct (String.eqb_spec k0 k) as [-> | _]; [| assumption].
      exfalso. apply Hk0. eapply get_Some_In_keys; eassumption.
Qed.

Lemma update_header_ok (q : qcml_t) (hs hs' : headers_t) (key : string)
    (fields : list (string * hvalue)) :
  Dict.get (rev fields) "namespace" = None ->
  Dict.get (rev fields) "title" = None ->
  Dict.get (rev fields) "description" = None ->
  headers_ok q hs -> update_header hs key fields = inr hs' ->
  headers_ok q hs'.
Proof.
  intros Hn Ht Hd Hok Hu k h Hg. unfold update_header, getitem in Hu.
  destruct (Dict.get hs key) as [h0 |] eqn:Eh; [| discriminate].
  simpl in Hu. injection Hu as <-.
  destruct (String.eqb_spec key k) as [-> | Hne].
  - rewrite get_set_eq in Hg. injection Hg as <-.
    rewrite !get_update, Hn, Ht, Hd. apply Hok. assumption.
  - rewrite get_set_neq in Hg by assumption. apply Hok. assumption.
Qed.

Lemma make_headers_ok (q : qcml_t) (hs : headers_t) :
  qcml_ok q -> make_headers q = inr hs -> headers_ok q hs.
Proof.
  intros Hq Hm. unfold make_headers in Hm.
  apply bind_inr in Hm as [h0 [Hbase Hm]].
  pose proof (base_headers_ok q h0 Hq Hbase) as Hok. clear Hbase.
  repeat match type of Hm with
         | bind (update_header ?h ?key ?fs) _ = inr _ =>
             let hi := fresh "h" in
             let Hi := fresh "Hu" in
             apply bind_inr in Hm as [hi [Hi Hm]];
             apply (update_header_ok q h hi key fs eq_refl eq_refl eq_refl
                      Hok) in Hi;
             clear Hok; rename Hi into Hok
         end.
  match type of Hm with
  | update_header ?h ?key ?fs = _ =>
      exact (update_header_ok q h hs key fs eq_refl eq_refl eq_refl Hok Hm)
  end.
Qed.

(** All that a run of [__init__] that returns leaves behind. *)
Lemma init_inr_report (files : list log_file) (st : module_state)
    (out : report) :
  parse_files files = inr st ->
  MultiqcModule_init files = inr out ->
  derive_qcml (qcml st) = inr (report_qcml out) /\
  make_headers (report_qcml out) = inr (report_headers out) /\
  report_general_headers out
  = dict_ordered_subset (report_headers out)
      ["read count"; "bases sequenced"; "gc content %"].
Proof.
  intros Hp Hi. unfold MultiqcModule_init in Hi. rewrite Hp in Hi.
  simpl in Hi.
  destruct (Nat.eqb (Dict.len (ignore_samples (qcdata st))) 0);
    [discriminate |].
  unfold derive_and_build in Hi.
  apply bind_inr in Hi as [q [Hq Hi]].
  apply bind_inr in Hi as [d' [Hd Hi]].
  apply bind_inr in Hi as [hs [Hh Hi]].
  injection Hi as <-. simpl. auto.
Qed.

(** X14.  In a run of [__init__] that returns, every column of the header
    configuration has the namespace "ReadQC", its own key as the title and
    the description of its metadata entry; the display settings that lines
    150-163 add do not replace any of the three. *)
Theorem header_columns_keep_title_and_description (files : list log_file)
    (out : report) (k : string) (h : Dict.t string hvalue) :
  MultiqcModule_init files = inr out ->
  Dict.get (report_headers out) k = Some h ->
  Dict.get h "namespace" = Some (HStr "ReadQC") /\
  Dict.get h "title" = Some (HStr k) /\
  exists entry d,
    Dict.get (report_qcml out) k = Some entry /\
    Dict.get entry "description" = Some d /\
    Dict.get h "description" = Some (HStr d).
Proof.
  intros Hi Hg.
  destruct (parse_files files) as [e | st] eqn:Hp.
  { unfold MultiqcModule_init in Hi. rewrite Hp in Hi. discriminate. }
  destruct (init_inr_report files st out Hp Hi) as [Hq [Hh _]].
  destruct (parse_files_state_ok files st Hp) as [Hok _].
  apply (make_headers_ok (report_qcml out) (report_headers out)
           (derive_qcml_ok _ _ Hok Hq) Hh).
  exact Hg.
Qed.

(** X15.  In a run of [__init__] that returns, the headers handed to the
    general statistics are those of 'read count', 'bases sequenced' and
    'gc content %', in this order, each the same as in the overview
    table. *)
Theorem general_stats_columns (files : list log_file) (out : report) :
  MultiqcModule_init files = inr out ->
  Dict.keys (report_general_headers out)
  = ["read count"; "bases sequenced"; "gc content %"] /\
  forall k, In k ["read count"; "bases sequenced"; "gc content %"] ->
            exists h, Dict.get (report_headers out) k = Some h /\
                      Dict.get (report_general_headers out) k = Some h.
Proof.
  intros Hi.
  destruct (parse_files files) as [e | st] eqn:Hp.
  { unfold MultiqcModule_init in Hi. rewrite Hp in Hi. discriminate. }
  destruct (init_inr_report files st out Hp Hi) as [Hq [Hh ->]].
  destruct (parse_files_state_ok files st Hp) as [Hok _].
  assert (Hin : forall k,
             In k ["read count"; "bases sequenced"; "gc content %"] ->
             exists h, Dict.get (report_headers out) k = Some h).
  { intros k Hk. apply In_keys_get.
    apply (make_headers_keys _ _ k Hh).
    apply (make_headers_returns_iff _ (derive_qcml_ok _ _ Hok Hq));
      [eauto |].
    unfold required_columns. simpl in *. intuition. }
  split.
  - unfold dict_ordered_subset. rewrite subset_fold_keys.
    + simpl. unfold Dict.mem.
      destruct (Hin "read count") as [h1 ->]; [simpl; auto |].
      destruct (Hin "bases sequenced") as [h2 ->]; [simpl; auto |].
      destruct (Hin "gc content %") as [h3 ->]; [simpl; auto |].
      reflexivity.
    + simpl. repeat constructor; simpl; intuition discriminate.
  - intros k Hk. destruct (Hin k Hk) as [h Hg]. exists h.
    split; [assumption |].
    unfold dict_ordered_subset. rewrite subset_fold_get, Hg.
    simpl in Hk. destruct Hk as [<- | [<- | [<- | []]]]; reflexivity.
Qed.
End HeaderFacts.

(** ** [MultiqcModule.__init__]: one row for a sample *)

Section SampleFacts.
Context `{Host}.

(** The row that a call returns does not depend on the metadata table it
    starts from. *)
Lemma parse_elements_row_independent (es : list Element) (p p' : row)
    (q1 q1' q2 : qcml_t) :
  foldM parse_qp es (p, q1) = inr (p', q1') ->
  exists q2', foldM parse_qp es (p, q2) = inr (p', q2').
Proof.
  revert p q1 q2; induction es as [| qp es IH]; simpl; intros p q1 q2 Hf.
  - injection Hf as <- <-. eauto.
  - apply bind_inr in Hf as [st1 [H1 Hf]].
    apply parse_qp_inr in H1 as [v [Hv [[Hna ->] | [Hna [n [Hn ->]]]]]].
    + rewrite (parse_qp_skip (p, q2) qp v Hv Hna). simpl. eauto.
    + rewrite (parse_qp_record (p, q2) qp v n Hv Hna Hn). simpl. eauto.
Qed.

Lemma parse_files_other_names (files : list log_file)
    (st0 st : module_state) (name : string) :
  foldM parse_file files st0 = inr st ->
  (forall lf, In lf files -> clean_s_name (s_name lf) (root lf) <> name) ->
  Dict.get (qcdata st) name = Dict.get (qcdata st0) name /\
  Dict.get (read_types st) name = Dict.get (read_types st0) name.
Proof.
  revert st0; induction files as [| lf files IH]; simpl; intros st0 Hf Hne.
  - injection Hf as <-. auto.
  - apply bind_inr in Hf as [st1 [H1 Hf]].
    destruct (IH st1 Hf) as [-> ->]; [auto |].
    unfold parse_file in H1.
    apply bind_inr in H1 as [parsed [_ H1]].
    apply bind_inr in H1 as [rt [_ H1]]. injection H1 as <-. simpl.
    rewrite !get_set_neq by auto. auto.
Qed.

(** X16.  The row and the read type of a sample are those of the last file
    with that sample name, and they are what that file gives on its own:
    earlier files of the same name are replaced, and files of other samples
    have no part in it. *)
Theorem sample_row_is_of_its_last_file (before after : list log_file)
    (lf : log_file) (st : module_state) :
  parse_files (before ++ lf :: after) = inr st ->
  (forall lf', In lf' after ->
               clean_s_name (s_name lf') (root lf')
               <> clean_s_name (s_name lf) (root lf)) ->
  exists params q' rt,
    parse_qcml_by Dict.empty (f lf) "qualityParameter" = inr (params, q') /\
    get_read_type (f lf) = inr rt /\
    Dict.get (qcdata st) (clean_s_name (s_name lf) (root lf)) = Some params /\
    Dict.get (read_types st) (clean_s_name (s_name lf) (root lf)) = Some rt.
Proof.
  intros Hp Hafter. unfold parse_files in Hp. rewrite foldM_app in Hp.
  apply bind_inr in Hp as [st1 [_ Hp]]. simpl in Hp.
  apply bind_inr in Hp as [st2 [H2 Hp]].
  destruct (parse_files_other_names after st2 st _ Hp Hafter) as [-> ->].
  unfold parse_file in H2.
  apply bind_inr in H2 as [[params q1] [Hparse H2]].
  apply bind_inr in H2 as [rt [Hrt H2]]. injection H2 as <-. simpl.
  unfold parse_qcml_by in *.
  destruct (parse_elements_row_independent _ _ _ _ _ Dict.empty Hparse)
    as [q' Hq'].
  exists params, q', rt. rewrite !get_set_eq. auto.
Qed.
End SampleFacts.

(** ** [plot_idhist]: when it returns, and the layout of what it returns *)

Lemma mapM_raises_In {A B : Type} (f : A -> result B) (Q : exn -> Prop)
    (l : list A) (e : exn) :
  (forall a e, In a l -> f a = inl e -> Q e) -> mapM f l = inl e -> Q e.
Proof.
  induction l as [| a l IH]; simpl; intros Hf Hm; [discriminate |].
  destruct (f a) as [e1 | b] eqn:E1; simpl in Hm.
  - injection Hm as <-. eauto.
  - destruct (mapM f l) as [e2 | bs]; simpl in Hm; [| discriminate].
    injection Hm as <-. apply IH; [| reflexivity].
    intros a0 e0 Hin. apply Hf. auto.
Qed.

Lemma get_rev_NoDup {K V : Type} `{EqKey K} (d : Dict.t K V) (k : K) :
  NoDup (Dict.keys d) -> Dict.get (rev d) k = Dict.get d k.
Proof.
  intros Hnd. destruct (Dict.get (rev d) k) as [v |] eqn:Er.
  - apply get_Some_In in Er. apply in_rev in Er.
    symmetry. apply In_NoDup_get; assumption.
  - symmetry. apply get_None_keys. apply get_None_keys in Er.
    intros Hin. apply Er. unfold Dict.keys in *.
    rewrite map_rev. apply in_rev. rewrite rev_involutive. exact Hin.
Qed.

Section PlotLayout.
Context `{PySet Z}.

Implicit Types (samples : Dict.t string sample_entry) (e : sample_entry).

Lemma series_returns samples (xs : pyset) (column_type : string)
    (column : nat) :
  counts_complete samples ->
  (column < 2)%nat ->
  Dict.get columns_to_plot column_type = Some [(column, "Count")] ->
  series samples xs column_type = inr (column_series samples xs column).
Proof.
  intros Hc Hcol Hct. unfold series, column_series.
  rewrite (mapM_pure _
             (fun sample => [((sample ++ ".Count")%string,
                              points_of samples xs column sample)])).
  - simpl. rewrite <- flat_map_concat_map. unfold ret. f_equal.
  - intros sample Hin. unfold getitem at 1. rewrite Hct. simpl.
    unfold getitem, points_of.
    apply In_keys_get in Hin as [e He]. rewrite He. simpl.
    rewrite series_points_eq.
    + reflexivity.
    + intros x counts Hx. pose proof (Hc sample e x counts He Hx). lia.
Qed.

Lemma series_points_raises e (column : nat) (l : list Z) (err : exn) :
  series_points e column l = inl err -> err = IndexError.
Proof.
  unfold series_points. intros Hs.
  match type of Hs with
  | bind ?m _ = _ => destruct m as [e1 | pts] eqn:E1
  end; simpl in Hs; [| discriminate].
  injection Hs as <-.
  apply (mapM_raises _ (fun err => err = IndexError) _ _) in E1;
    [assumption |].
  intros x err'. unfold Dict.mem, getitem, index.
  destruct (Dict.get (data e) x) as [counts |]; simpl; [| discriminate].
  destruct (nth_error counts column); simpl; [discriminate |].
  intros E. injection E as <-. reflexivity.
Qed.

Lemma series_raises samples (xs : pyset) (column_type : string)
    (err : exn) :
  In column_type (Dict.keys columns_to_plot) ->
  series samples xs column_type = inl err -> err = IndexError.
Proof.
  intros Hct Hs. unfold series in Hs.
  match type of Hs with
  | bind ?m _ = _ => destruct m as [e1 | entries] eqn:E1
  end; simpl in Hs; [| discriminate].
  injection Hs as <-.
  apply (mapM_raises_In _ (fun err => err = IndexError) _ _) in E1;
    [assumption |].
  intros sample err' Hin.
  apply In_keys_get in Hct as [cols Hcols].
  apply In_keys_get in Hin as [e He].
  unfold getitem at 1. rewrite Hcols. simpl.
  apply (mapM_raises _ (fun err => err = IndexError)).
  intros col err''. unfold getitem. rewrite He. simpl.
  destruct (series_points e (fst col) (set_iter xs)) as [e2 | pts] eqn:E2;
    simpl; [| discriminate].
  intros E. injection E as <-. eapply series_points_raises; eassumption.
Qed.

Lemma series_points_inr_length e (l : list Z) (pts : Dict.t Z Z) (x : Z)
    (counts : list Z) :
  series_points e 1 l = inr pts ->
  In x l -> Dict.get (data e) x = Some counts ->
  (2 <= length counts)%nat.
Proof.
  unfold series_points. intros Hs Hin Hx.
  apply bind_inr in Hs as [l' [Hm _]].
  destruct (mapM_inr_In _ _ _ x Hm Hin) as [pt [_ Hpt]].
  unfold Dict.mem, getitem, index in Hpt. rewrite Hx in Hpt.
  cbn [bind ret] in Hpt.
  destruct (nth_error counts 1) eqn:En; [| discriminate].
  assert (Hsome : nth_error counts 1 <> None) by congruence.
  apply nth_error_Some in Hsome. lia.
Qed.

Lemma bases_series_inr_complete samples (xs : pyset)
    (b : Dict.t string (Dict.t Z Z)) :
  (forall x, In x (set_iter xs) <-> in_union samples x) ->
  series samples xs "Bases" = inr b -> counts_complete samples.
Proof.
  intros Hxs Hs sample e x counts He Hx. unfold series in Hs.
  apply bind_inr in Hs as [entries [Hm _]].
  assert (Hin : In sample (Dict.keys samples)).
  { eapply get_Some_In_keys; eassumption. }
  destruct (mapM_inr_In _ _ _ sample Hm Hin) as [entry [_ Hentry]].
  simpl in Hentry.
  apply bind_inr in Hentry as [item [Hitem _]].
  unfold getitem in Hitem. rewrite He in Hitem. simpl in Hitem.
  apply bind_inr in Hitem as [pts [Hpts _]].
  apply (series_points_inr_length e _ pts x counts Hpts); [| assumption].
  apply Hxs. exists sample, e. split; [assumption |].
  unfold Dict.mem. rewrite Hx. reflexivity.
Qed.

(** What [plot_data] is when it returns. *)
Lemma plot_data_inr samples (out : list (Dict.t string (Dict.t Z Z))) :
  plot_data samples = inr out ->
  counts_complete samples /\
  exists xs,
    (forall x, In x (set_iter xs) <-> in_union samples x) /\
    out = [column_series samples xs 0; column_series samples xs 1].
Proof.
  intros Hp. unfold plot_data in Hp.
  destruct (all_x_union samples) as [xs [Hxs Hunion]].
  rewrite Hxs in Hp. simpl in Hp.
  apply bind_inr in Hp as [r [Hr Hp]].
  apply bind_inr in Hp as [rest [Hrest Hp]]. injection Hp as <-.
  apply bind_inr in Hrest as [b [Hb Hrest]]. injection Hrest as <-.
  pose proof (bases_series_inr_complete samples xs b Hunion Hb) as Hc.
  split; [exact Hc |]. exists xs. split; [exact Hunion |].
  rewrite (series_returns samples xs "Reads" 0 Hc) in Hr
    by (auto; reflexivity).
  rewrite (series_returns samples xs "Bases" 1 Hc) in Hb
    by (auto; reflexivity).
  injection Hr as <-. injection Hb as <-. reflexivity.
Qed.

(** X17.  [plot_data] returns exactly when every list of counts that a
    sample has under an x-value has at least two entries; otherwise it
    raises [IndexError], and it raises nothing else. *)
Theorem plot_data_returns_iff samples :
  ((exists out, plot_data samples = inr out) <-> counts_complete samples) /\
  (forall err, plot_data samples = inl err -> err = IndexError).
Proof.
  split; [split |].
  - intros [out Hp]. apply (plot_data_inr samples out Hp).
  - intros Hc. unfold plot_data.
    destruct (all_x_union samples) as [xs [-> _]]. simpl.
    rewrite (series_returns samples xs "Reads" 0 Hc) by (auto; reflexivity).
    simpl.
    rewrite (series_returns samples xs "Bases" 1 Hc) by (auto; reflexivity).
    simpl. eauto.
  - intros err Hp. unfold plot_data in Hp.
    destruct (all_x_union samples) as [xs [Hxs _]].
    rewrite Hxs in Hp. cbn [bind] in Hp.
    apply (mapM_raises_In _ (fun err => err = IndexError) _ _) in Hp;
      [assumption |].
    intros column_type err' Hin. apply series_raises. exact Hin.
Qed.

Lemma NoDup_map_count (names : list string) :
  NoDup names -> NoDup (map (fun sample => (sample ++ ".Count")%string) names).
Proof.
  induction 1 as [| a l Ha Hl IH]; simpl; constructor; [| assumption].
  intros Hin. apply in_map_iff in Hin as [a' [Heq Hin]].
  apply append_inj_l in Heq. subst a'. contradiction.
Qed.

(** X18.  When [plot_data] returns, it is a list of two dictionaries, and
    each of them has one mapping for every sample, under the sample's name
    followed by [".Count"], in the order of the samples. *)
Theorem one_mapping_per_sample samples
    (out : list (Dict.t string (Dict.t Z Z))) :
  NoDup (Dict.keys samples) ->
  plot_data samples = inr out ->
  exists reads bases,
    out = [reads; bases] /\
    Dict.keys reads
    = map (fun sample => (sample ++ ".Count")%string) (Dict.keys samples) /\
    Dict.keys bases
    = map (fun sample => (sample ++ ".Count")%string) (Dict.keys samples).
Proof.
  intros Hnd Hp.
  destruct (plot_data_inr samples out Hp) as [_ [xs [_ ->]]].
  do 2 eexists. split; [reflexivity |].
  assert (Hkeys : forall column,
             Dict.keys (column_series samples xs column)
             = map (fun sample => (sample ++ ".Count")%string)
                   (Dict.keys samples)).
  { intros column. unfold column_series.
    rewrite of_list_NoDup.
    - unfold Dict.keys. rewrite map_map. reflexivity.
    - rewrite map_map. simpl. apply NoDup_map_count. exact Hnd. }
  split; apply Hkeys.
Qed.

(** X19.  When [plot_data] returns, all per-sample mappings of both series
    list the same x-values in the same order, each x-value of the union
    once. *)
Theorem same_x_order_in_all_mappings samples
    (out : list (Dict.t string (Dict.t Z Z))) :
  plot_data samples = inr out ->
  exists order,
    NoDup order /\
    (forall x, In x order <-> in_union samples x) /\
    forall series key m,
      In series out -> Dict.get series key = Some m ->
      Dict.keys m = order.
Proof.
  intros Hp.
  destruct (plot_data_inr samples out Hp) as [_ [xs [Hunion ->]]].
  exists (set_iter xs). split; [apply set_iter_NoDup |].
  split; [exact Hunion |].
  intros series key m Hin Hg.
  assert (Hcol : exists column, series = column_series samples xs column).
  { destruct Hin as [<- | [<- | []]]; eauto. }
  destruct Hcol as [column ->]. unfold column_series in Hg.
  apply get_Some_In in Hg.
  apply (In_update_items _ Dict.empty) in Hg as [Hg | []].
  apply in_map_iff in Hg as [sample [Heq Hs]]. injection Heq as <- <-.
  apply In_keys_get in Hs as [e He].
  apply (points_of_order samples xs column sample e He).
Qed.

(** X20.  In the plot configuration an entry of the caller's
    ['plot_params'] wins over the default of that key, and every key that
    the caller does not set keeps its default; the default id is
    ["bbmap-" + file_type + "_plot"]. *)
Theorem plot_params_overrides (file_type : string) (args : plot_args_t)
    (k : string) :
  NoDup (Dict.keys (plot_params_arg args)) ->
  Dict.get (plot_params file_type args) k
  = match Dict.get (plot_params_arg args) k with
    | Some v => Some v
    | None =>
        Dict.get
          [ ("id", PStr ("bbmap-" ++ file_type ++ "_plot")%string);
            ("title", PStr ("BBTools: " ++ plot_title args)%string);
            ("xlab", PStr "Percent identity");
            ("ylab", PStr "Read count");
            ("data_labels",
             PLabels [ [ ("name", "Reads"); ("ylab", "Read count") ];
                       [ ("name", "Bases"); ("ylab", "Number of bases") ] ]) ]
          k
    end.
Proof.
  intros Hnd. unfold plot_params. rewrite get_update.
  rewrite get_rev_NoDup by exact Hnd. reflexivity.
Qed.
End PlotLayout.

(** ** The further properties at the examples *)

Section MoreWitnesses.
Import DecimalFloat Examples MoreExamples.

Lemma last_recorded_element_wins_example :
  findall duplicate_name_doc "qualityParameter"
  = [qp "read count" "n/a (not computed)"] ++ qp "read count" "100" :: [] /\
  parse_qcml_by Dict.empty duplicate_name_doc "qualityParameter"
  = inr duplicate_parsed /\
  Dict.get (K:=string) (fst duplicate_parsed)
           (re_sub_percentage "read count")
  = Some (match float_of_string "100" with
          | Some x => VFloat x
          | None => VStr "100"
          end) /\
  Dict.get (K:=string) (snd duplicate_parsed)
           (re_sub_percentage "read count")
  = Some (metadata_of (qp "read count" "100")).
Proof.
  split; [reflexivity |]. split; [reflexivity |].
  apply (last_recorded_element_wins Dict.empty (snd duplicate_parsed)
           duplicate_name_doc "qualityParameter" (fst duplicate_parsed)
           [qp "read count" "n/a (not computed)"] []
           (qp "read count" "100") "100" "read count");
    try reflexivity.
  intros qp' v' n' [].
Defined.

Lemma recorded_names_have_metadata_example :
  parse_qcml_by Dict.empty paired_doc "qualityParameter" = inr paired_parsed /\
  In "gc content %" (Dict.keys (fst paired_parsed)) /\
  exists d a,
    Dict.get (snd paired_parsed) "gc content %"
    = Some [("description", d); ("accession", a)].
Proof.
  assert (Hin : In "gc content %" (Dict.keys (fst paired_parsed))).
  { simpl. tauto. }
  split; [reflexivity |]. split; [exact Hin |].
  apply (recorded_names_have_metadata Dict.empty (snd paired_parsed)
           paired_doc "qualityParameter" (fst paired_parsed) "gc content %");
    [reflexivity | exact Hin].
Defined.

Lemma metadata_of_other_names_kept_example :
  parse_qcml_by earlier_qcml only_na_doc "qualityParameter"
  = inr only_na_parsed /\
  (forall k, In k (Dict.keys earlier_qcml) ->
             In k (Dict.keys (snd only_na_parsed))) /\
  (forall k, ~ In k (Dict.keys (fst only_na_parsed)) ->
             Dict.get (snd only_na_parsed) k = Dict.get earlier_qcml k).
Proof.
  split; [reflexivity |].
  apply (metadata_of_other_names_kept earlier_qcml (snd only_na_parsed)
           only_na_doc "qualityParameter" (fst only_na_parsed)).
  reflexivity.
Defined.


Lemma read_type_of_same_files_example :
  (forall sf, In sf ["a_R1.fastq"; "a_R2.fastq"]
              <-> In sf ["a_R2.fastq"; "a_R1.fastq"; "a_R2.fastq"]) /\
  read_type_of ["a_R1.fastq"; "a_R2.fastq"]
  = read_type_of ["a_R2.fastq"; "a_R1.fastq"; "a_R2.fastq"].
Proof.
  assert (Hsame : forall sf,
             In sf ["a_R1.fastq"; "a_R2.fastq"]
             <-> In sf ["a_R2.fastq"; "a_R1.fastq"; "a_R2.fastq"]).
  { intros sf. simpl. tauto. }
  split; [exact Hsame |].
  apply (read_type_of_same_files ["a_R1.fastq"; "a_R2.fastq"]
           ["a_R2.fastq"; "a_R1.fastq"; "a_R2.fastq"] Hsame).
Defined.

Lemma make_description_of_recorded_names_example :
  parse_qcml_by Dict.empty paired_doc "qualityParameter" = inr paired_parsed /\
  (forall key, In key ["read count"; "read length"] ->
               In key (Dict.keys (fst paired_parsed))) /\
  exists s,
    make_description (snd paired_parsed) ["read count"; "read length"]
    = inr s.
Proof.
  assert (Hkeys : forall key, In key ["read count"; "read length"] ->
                              In key (Dict.keys (fst paired_parsed))).
  { intros key [<- | [<- | []]]; simpl; tauto. }
  split; [reflexivity |]. split; [exact Hkeys |].
  apply (make_description_of_recorded_names Dict.empty (snd paired_parsed)
           paired_doc "qualityParameter" (fst paired_parsed)
           ["read count"; "read length"]); [reflexivity | exact Hkeys].
Defined.


Lemma report_rows_are_the_remaining_samples_example :
  MultiqcModule_init three_samples = inr three_samples_report /\
  Dict.keys (report_qcdata three_samples_report)
  = filter (fun name => negb (sample_ignored name))
           (first_occurrences
              (map (fun lf => clean_s_name (s_name lf) (root lf))
                   three_samples)).
Proof.
  split; [reflexivity |].
  apply (report_rows_are_the_remaining_samples three_samples
           three_samples_report). reflexivity.
Defined.

Lemma header_columns_keep_title_and_description_example :
  MultiqcModule_init three_samples = inr three_samples_report /\
  Dict.get (report_headers three_samples_report) "read count"
  = Some read_count_header /\
  Dict.get read_count_header "namespace" = Some (HStr "ReadQC") /\
  Dict.get read_count_header "title" = Some (HStr "read count") /\
  exists entry d,
    Dict.get (report_qcml three_samples_report) "read count" = Some entry /\
    Dict.get entry "description" = Some d /\
    Dict.get read_count_header "description" = Some (HStr d).
Proof.
  split; [reflexivity |]. split; [reflexivity |].
  apply (header_columns_keep_title_and_description three_samples
           three_samples_report "read count" read_count_header);
    reflexivity.
Defined.

Lemma general_stats_columns_example :
  MultiqcModule_init three_samples = inr three_samples_report /\
  Dict.keys (report_general_headers three_samples_report)
  = ["read count"; "bases sequenced"; "gc content %"] /\
  forall k, In k ["read count"; "bases sequenced"; "gc content %"] ->
            exists h,
              Dict.get (report_headers three_samples_report) k = Some h /\
              Dict.get (report_general_headers three_samples_report) k
              = Some h.
Proof.
  split; [reflexivity |].
  apply (general_stats_columns three_samples three_samples_report).
  reflexivity.
Defined.

Lemma sample_row_is_of_its_last_file_example :
  parse_files ([file "a" single_doc] ++ file "a" paired_doc
               :: [file "b" single_doc])
  = inr repeated_sample_state /\
  (forall lf', In lf' [file "b" single_doc] ->
               clean_s_name (s_name lf') (root lf')
               <> clean_s_name (s_name (file "a" paired_doc))
                               (root (file "a" paired_doc))) /\
  exists params q' rt,
    parse_qcml_by Dict.empty (f (file "a" paired_doc)) "qualityParameter"
    = inr (params, q') /\
    get_read_type (f (file "a" paired_doc)) = inr rt /\
    Dict.get (qcdata repeated_sample_state)
             (clean_s_name (s_name (file "a" paired_doc))
                           (root (file "a" paired_doc)))
    = Some params /\
    Dict.get (read_types repeated_sample_state)
             (clean_s_name (s_name (file "a" paired_doc))
                           (root (file "a" paired_doc)))
    = Some rt.
Proof.
  assert (Hafter : forall lf', In lf' [file "b" single_doc] ->
             clean_s_name (s_name lf') (root lf')
             <> clean_s_name (s_name (file "a" paired_doc))
                             (root (file "a" paired_doc))).
  { intros lf' [<- | []]. discriminate. }
  split; [reflexivity |]. split; [exact Hafter |].
  apply (sample_row_is_of_its_last_file [file "a" single_doc]
           [file "b" single_doc] (file "a" paired_doc)
           repeated_sample_state); [reflexivity | exact Hafter].
Defined.

Lemma one_mapping_per_sample_example :
  NoDup (Dict.keys two_histograms) /\
  plot_data two_histograms = inr two_histograms_plot /\
  exists reads bases,
    two_histograms_plot = [reads; bases] /\
    Dict.keys reads
    = map (fun sample => (sample ++ ".Count")%string)
          (Dict.keys two_histograms) /\
    Dict.keys bases
    = map (fun sample => (sample ++ ".Count")%string)
          (Dict.keys two_histograms).
Proof.
  assert (Hnd : NoDup (Dict.keys two_histograms)).
  { repeat constructor; simpl; intuition discriminate. }
  split; [exact Hnd |]. split; [reflexivity |].
  apply (one_mapping_per_sample two_histograms two_histograms_plot Hnd).
  reflexivity.
Defined.

Lemma same_x_order_in_all_mappings_example :
  plot_data two_histograms = inr two_histograms_plot /\
  exists order,
    NoDup order /\
    (forall x, In x order <-> in_union two_histograms x) /\
    forall series key m,
      In series two_histograms_plot -> Dict.get series key = Some m ->
      Dict.keys m = order.
Proof.
  split; [reflexivity |].
  apply (same_x_order_in_all_mappings two_histograms two_histograms_plot).
  reflexivity.
Defined.

Lemma plot_params_overrides_example :
  NoDup (Dict.keys (plot_params_arg my_plot_args)) /\
  Dict.get (plot_params "idhist" my_plot_args) "title"
  = match Dict.get (plot_params_arg my_plot_args) "title" with
    | Some v => Some v
    | None =>
        Dict.get
          [ ("id", PStr ("bbmap-" ++ "idhist" ++ "_plot")%string);
            ("title",
             PStr ("BBTools: " ++ plot_title my_plot_args)%string);
            ("xlab", PStr "Percent identity");
            ("ylab", PStr "Read count");
            ("data_labels",
             PLabels [ [ ("name", "Reads"); ("ylab", "Read count") ];
                       [ ("name", "Bases"); ("ylab", "Number of bases") ] ]) ]
          "title"
    end.
Proof.
  assert (Hnd : NoDup (Dict.keys (plot_params_arg my_plot_args))).
  { repeat constructor; simpl; tauto. }
  split; [exact Hnd |].
  apply (plot_params_overrides "idhist" my_plot_args "title" Hnd).
Defined.
End MoreWitnesses.
